(** * Shallow embedding of the outboxen processor (pkg/outbox, pkg/fake)

    Go values are modelled as follows: [time.Time] and [time.Duration] as
    nanosecond counts in [Z]; Go [int] as [Z]; [[]byte] as [list Byte.byte];
    Go strings as [String.string]; an interface value as [option] of its
    implementation ([None] is [nil]); Go [error] values as the inductive
    [goerr]. *)

From Stdlib Require Import String List ZArith Lia Bool Permutation Arith.
Import ListNotations.
Open Scope Z_scope.
Set Warnings "-register-all".

(** ** Errors *)

(** Go [error] values that the processor produces or inspects:
    - [PubErr errs] is a [*PublishError] whose [Errors] slice is [errs]
      ([None] is a nil position);
    - [Other tag] is any other error value;
    - [Wrap msg e] is [fmt.Errorf(msg ++ ": %w", e)];
    - [Multi es] is a [multierr] combined error. *)
Inductive goerr : Type :=
| PubErr (errs : list (option goerr))
| Other (tag : string)
| Wrap (msg : string) (e : goerr)
| Multi (es : list goerr).

(** [errors.As(err, &publishErr)] with target [*PublishError]: unwraps
    [%w] chains and looks into every member of a multi-error, in order. *)
Fixpoint errors_As (e : goerr) : option (list (option goerr)) :=
  match e with
  | PubErr errs => Some errs
  | Other _ => None
  | Wrap _ e' => errors_As e'
  | Multi es =>
      (fix first (l : list goerr) : option (list (option goerr)) :=
         match l with
         | [] => None
         | x :: r => match errors_As x with
                     | Some errs => Some errs
                     | None => first r
                     end
         end) es
  end.

(** The members of an error as [multierr] flattens it. *)
Definition multierr_errors (e : goerr) : list goerr :=
  match e with
  | Multi es => es
  | _ => [e]
  end.

(** [multierr.Combine(err, deleteErr)] with [deleteErr] non-nil. *)
Definition multierr_Combine (err : option goerr) (deleteErr : goerr) : goerr :=
  match err with
  | None => deleteErr
  | Some e => Multi (multierr_errors e ++ multierr_errors deleteErr)
  end.

(** [PublishError.ErrorCount]: the number of non-nil positions. *)
Definition ErrorCount (errs : list (option goerr)) : nat :=
  length (filter (fun o => match o with Some _ => true | None => false end) errs).

(** ** Data model (pkg/outbox/interface.go) *)

(** [Entry].  [processBatch] reads [entry.Namespace], so the entry record
    carries the namespace the entry was written to. *)
Record Entry : Type := mkEntry {
  ID : string;
  CreatedAt : Z;
  Key : list Byte.byte;
  Payload : list Byte.byte;
  Namespace : string;
  ProcessorID : string;
  ProcessingDeadline : option Z
}.

Record Message : Type := mkMessage {
  Message_Key : list Byte.byte;
  Message_Payload : list Byte.byte
}.

(** ** Configuration (config.go) *)

Inductive ClockImpl : Type :=
| RealClock
| FakeClock (name : string).

Inductive LoggerImpl : Type :=
| DiscardLogger
| SomeLogger (name : string).

Record Config : Type := mkConfig {
  Clock : option ClockImpl;
  Storage : option string;
  Publisher : option string;
  ProcessInterval : Z;
  ClaimDuration : Z;
  ProcessorID_cfg : string;
  BatchSize : Z;
  Logger : option LoggerImpl
}.

Definition Second : Z := 1000000000.
Definition DefaultProcessInterval : Z := 10 * Second.
Definition DefaultClaimDuration : Z := 2 * Second.
Definition DefaultBatchSize : Z := 20.

(** [Config.DefaultAndValidate]: the configuration after the call (it
    mutates its receiver) and the returned error. *)
Definition DefaultAndValidate (c : Config) : Config * option string :=
  match Storage c with
  | None => (c, Some "no storage provided"%string)
  | Some _ =>
  match Publisher c with
  | None => (c, Some "no publisher provided"%string)
  | Some _ =>
  if String.eqb (ProcessorID_cfg c) "" then (c, Some "no processor ID provided"%string)
  else
    let clock := match Clock c with None => Some RealClock | Some k => Some k end in
    let logger := match Logger c with None => Some DiscardLogger | Some l => Some l end in
    let pi := if ProcessInterval c =? 0 then DefaultProcessInterval else ProcessInterval c in
    let cd := if ClaimDuration c =? 0 then DefaultClaimDuration else ClaimDuration c in
    let bs := if BatchSize c <? 1 then DefaultBatchSize else BatchSize c in
    (mkConfig clock (Storage c) (Publisher c) pi cd (ProcessorID_cfg c) bs logger, None)
  end
  end.

(** [outbox.New]: [Some] configuration held by the outbox, or the error. *)
Definition New (c : Config) : option Config * option string :=
  match DefaultAndValidate c with
  | (c', None) => (Some c', None)
  | (_, Some msg) => (None, Some ("invalid config: " ++ msg)%string)
  end.

(** ** Interfaces (pkg/outbox/interface.go) *)

(** [ProcessorStorage] over a store state [St]: each operation returns the
    new state (reads leave it unchanged) and the returned error. *)
Record ProcessorStorage (St : Type) : Type := mkProcessorStorage {
  ClaimEntries : St -> string -> Z -> St * option goerr;
  GetClaimedEntries : St -> string -> Z -> list Entry * option goerr;
  DeleteEntries : St -> list string -> St * option goerr
}.
Arguments ClaimEntries {St} _ _ _ _.
Arguments GetClaimedEntries {St} _ _ _ _.
Arguments DeleteEntries {St} _ _ _.

(** ** The fake store (pkg/fake/storage.go) *)

(** [EntryStorage]: the reading of its [Clock] and its [entries] slice. *)
Record EntryStorage : Type := mkEntryStorage {
  fs_now : Z;
  fs_entries : list Entry
}.

(** The loop body of [EntryStorage.ClaimEntries] on one entry. *)
Definition claim_entry (now : Z) (processorID : string) (claimDeadline : Z)
    (entry : Entry) : Entry :=
  if negb (String.eqb (ProcessorID entry) "")
     && match ProcessingDeadline entry with
        | Some d => now <? d
        | None => false
        end
  then entry
  else mkEntry (ID entry) (CreatedAt entry) (Key entry) (Payload entry)
         (Namespace entry) processorID (Some claimDeadline).

Definition fake_ClaimEntries (e : EntryStorage) (processorID : string)
    (claimDeadline : Z) : EntryStorage * option goerr :=
  (mkEntryStorage (fs_now e)
     (map (claim_entry (fs_now e) processorID claimDeadline) (fs_entries e)),
   None).

(** The loop of [EntryStorage.GetClaimedEntries], [acc] being [entries]. *)
Fixpoint get_claimed_loop (processorID : string) (batchSize : Z)
    (acc : list Entry) (l : list Entry) : list Entry :=
  match l with
  | [] => acc
  | entry :: rest =>
      if negb (String.eqb (ProcessorID entry) processorID)
      then get_claimed_loop processorID batchSize acc rest
      else
        let acc' := acc ++ [entry] in
        if Z.of_nat (length acc') >=? batchSize then acc'
        else get_claimed_loop processorID batchSize acc' rest
  end.

Definition fake_GetClaimedEntries (e : EntryStorage) (processorID : string)
    (batchSize : Z) : list Entry * option goerr :=
  (get_claimed_loop processorID batchSize [] (fs_entries e), None).

(** [found] in [EntryStorage.DeleteEntries]. *)
Definition id_listed (entryIDs : list string) (entry : Entry) : bool :=
  existsb (fun i => String.eqb i (ID entry)) entryIDs.

Definition fake_DeleteEntries (e : EntryStorage) (entryIDs : list string)
    : EntryStorage * option goerr :=
  (mkEntryStorage (fs_now e)
     (filter (fun entry => negb (id_listed entryIDs entry)) (fs_entries e)),
   None).

Definition fake_storage : ProcessorStorage EntryStorage :=
  mkProcessorStorage EntryStorage fake_ClaimEntries fake_GetClaimedEntries
    fake_DeleteEntries.

(** ** Context settings (pkg/outbox/interface.go, settings) *)

(** The outcome of a Go call that may panic. *)
Inductive go_result (A : Type) : Type :=
| Returns (a : A)
| Panics.
Arguments Returns {A} _.
Arguments Panics {A}.

Record ContextSettings : Type := mkContextSettings {
  cs_Namespace : string
}.

(** Keys of [context.WithValue]: the package's [settingsKey{}], or a key of
    some other type. *)
Inductive ctx_key : Type :=
| SettingsKey
| OtherKey (k : string).

Definition ctx_key_eqb (a b : ctx_key) : bool :=
  match a, b with
  | SettingsKey, SettingsKey => true
  | OtherKey x, OtherKey y => String.eqb x y
  | _, _ => false
  end.

(** Values stored in a context: a [*ContextSettings] ([None] is a typed nil
    pointer), or a value of some other type.  The pointed-to settings are
    never written after they are stored ([augmentContextSettings] mutates a
    clone), so a pointer is modelled by the value it points to. *)
Inductive ctx_value : Type :=
| SettingsPtr (c : option ContextSettings)
| OtherValue (v : string).

(** A [context.Context]: its [WithValue] layers, innermost first; [[]] is
    [context.Background()]. *)
Definition Context : Type := list (ctx_key * ctx_value).

(** [ctx.Value(key)]: the innermost layer with that key; [None] is the nil
    interface. *)
Fixpoint ctx_Value (ctx : Context) (key : ctx_key) : option ctx_value :=
  match ctx with
  | [] => None
  | (k, v) :: parent => if ctx_key_eqb k key then Some v else ctx_Value parent key
  end.

(** [ContextSettings.Clone]: a value receiver, so a copy. *)
Definition Clone (c : ContextSettings) : ContextSettings := c.

(** [ctx.Value(settingsKey{}).( *ContextSettings)]: the type assertion
    panics unless the value is a [*ContextSettings]. *)
Definition settingsFromContext (ctx : Context) : go_result (option ContextSettings) :=
  match ctx_Value ctx SettingsKey with
  | Some (SettingsPtr c) => Returns c
  | _ => Panics
  end.

Definition contextWithSettings (ctx : Context) (newCtx : ContextSettings) : Context :=
  (SettingsKey, SettingsPtr (Some newCtx)) :: ctx.

Definition augmentContextSettings (ctx : Context)
    (f : ContextSettings -> ContextSettings) : go_result Context :=
  match settingsFromContext ctx with
  | Panics => Panics
  | Returns c =>
      let c := match c with None => mkContextSettings "" | Some c => c end in
      let c := Clone c in
      let c := f c in
      Returns (contextWithSettings ctx c)
  end.

Definition NamespaceFromContext (ctx : Context) : go_result string :=
  match settingsFromContext ctx with
  | Panics => Panics
  | Returns None => Returns ""%string
  | Returns (Some c) => Returns (cs_Namespace c)
  end.

Definition WithNamespace (ctx : Context) (namespace : string) : go_result Context :=
  augmentContextSettings ctx (fun c => {| cs_Namespace := namespace |}).

(** ** The processor (pkg/outbox/outbox.go) *)

Definition entry_message (entry : Entry) : Message :=
  mkMessage (Key entry) (Payload entry).

(** [namespaced[k] = append(namespaced[k], msg)] on the map, kept as an
    association list in key-insertion order. *)
Fixpoint ns_append (m : list (string * list Message)) (k : string)
    (msg : Message) : list (string * list Message) :=
  match m with
  | [] => [(k, [msg])]
  | (k', ms) :: rest =>
      if String.eqb k k' then (k', ms ++ [msg]) :: rest
      else (k', ms) :: ns_append rest k msg
  end.

(** The [namespaced] map built by the loop over [entries]. *)
Definition namespaced (entries : list Entry) : list (string * list Message) :=
  fold_left (fun m entry => ns_append m (Namespace entry) (entry_message entry))
    entries [].

(** [deletableIDs] built in the deferred function from
    [publishErr.Errors]: [None] when [entryIDs[idx]] is out of range, which
    panics in Go. *)
Fixpoint deletable_from (errs : list (option goerr)) (entryIDs : list string)
    : option (list string) :=
  match errs with
  | [] => Some []
  | err :: errs' =>
      let '(hd, tl) := match entryIDs with
                       | [] => (None, [])
                       | i :: r => (Some i, r)
                       end in
      match err with
      | Some _ => deletable_from errs' tl
      | None =>
          match hd with
          | None => None
          | Some i => option_map (cons i) (deletable_from errs' tl)
          end
      end
  end.

(** What [processBatch] returns, with the states of the store and of the
    publisher after it and the list of [Publisher.Publish] calls it made
    (namespace and messages).  [BatchPanicked] is a panic that leaves
    [processBatch]: the one of [WithNamespace] in the publish loop (after
    the deferred function has run), or the index-out-of-range panic of the
    deferred function itself. *)
Inductive batch_result (St PS : Type) : Type :=
| BatchReturned (s : St) (p : PS) (calls : list (string * list Message))
    (more : bool) (err : option goerr)
| BatchPanicked (s : St) (p : PS) (calls : list (string * list Message)).
Arguments BatchReturned {St PS} _ _ _ _ _.
Arguments BatchPanicked {St PS} _ _ _.

(** The outcome of one [PumpOutbox] pass. *)
Inductive pass_result : Type :=
| PassOk
| PassErr (e : goerr)
| PassPanic.

Section Processor.

(** The store, its state, the publisher's state and its [Publish] method,
    which receives the context of the call.  The store's methods receive
    [ctx] unchanged; the stores modelled here do not read it. *)
Context {St PS : Type}.
Variable storage : ProcessorStorage St.
Variable Publish : PS -> Context -> list Message -> PS * option goerr.
(** The order in which Go's [range] visits the [namespaced] map; Go leaves
    it unspecified. *)
Variable map_iter : list (string * list Message) -> list (string * list Message).
Variable cfg : Config.
(** The [ctx] argument of [PumpOutbox] and [processBatch]. *)
Variable ctx : Context.

(** [for namespace, messages := range namespaced { ... }]: the publisher
    state, the calls made, and how the loop ended: [Returns] the first
    publish error ([None] when every call succeeded), or [Panics] when
    [WithNamespace(ctx, namespace)] panicked. *)
Fixpoint publish_loop (p : PS) (groups : list (string * list Message))
    : PS * list (string * list Message) * go_result (option goerr) :=
  match groups with
  | [] => (p, [], Returns None)
  | (namespace, messages) :: rest =>
      match WithNamespace ctx namespace with
      | Panics => (p, [], Panics)
      | Returns publishCtx =>
          let '(p1, perr) := Publish p publishCtx messages in
          match perr with
          | Some e => (p1, [(namespace, messages)], Returns (Some e))
          | None =>
              let '(p2, calls, r) := publish_loop p1 rest in
              (p2, (namespace, messages) :: calls, r)
          end
      end
  end.

(** The deferred reconciliation: the IDs passed to [DeleteEntries], or
    [None] on the index-out-of-range panic. *)
Definition deletable_ids (err : option goerr) (entryIDs : list string)
    : option (list string) :=
  match err with
  | None => Some entryIDs
  | Some e =>
      match errors_As e with
      | Some errs => deletable_from errs entryIDs
      | None => Some []
      end
  end.

(** [processBatch].  The named result [err] is nil when the publish loop
    panics (the [err] of the loop body is a new variable), so the deferred
    function then deletes every fetched entry before the panic goes on. *)
Definition processBatch (s : St) (p : PS) : batch_result St PS :=
  match GetClaimedEntries storage s (ProcessorID_cfg cfg) (BatchSize cfg) with
  | (_, Some e) =>
      BatchReturned s p [] false (Some (Wrap "error getting claimed entries" e))
  | (entries, None) =>
      let more := Z.of_nat (length entries) >=? BatchSize cfg in
      let entryIDs := map ID entries in
      let '(p1, calls, r) := publish_loop p (map_iter (namespaced entries)) in
      let err := match r with
                 | Returns perr => option_map (Wrap "error publishing") perr
                 | Panics => None
                 end in
      match deletable_ids err entryIDs with
      | None => BatchPanicked s p1 calls
      | Some deletableIDs =>
          let '(s1, deleteErr) := DeleteEntries storage s deletableIDs in
          let err' := match deleteErr with
                      | None => err
                      | Some d => Some (multierr_Combine err d)
                      end in
          match r with
          | Returns _ => BatchReturned s1 p1 calls more err'
          | Panics => BatchPanicked s1 p1 calls
          end
      end
  end.

(** The [for] loop of [PumpOutbox] over [processBatch]: the [more] flag of
    every call that returned, the publish calls made, the final states and
    the outcome. *)
Inductive drain : St -> PS -> list bool -> list (string * list Message) ->
                  St -> PS -> pass_result -> Prop :=
| drain_err s p s1 p1 calls more e :
    processBatch s p = BatchReturned s1 p1 calls more (Some e) ->
    drain s p [more] calls s1 p1
      (PassErr (Wrap "error processing batch of outbox entries" e))
| drain_panic s p s1 p1 calls :
    processBatch s p = BatchPanicked s1 p1 calls ->
    drain s p [] calls s1 p1 PassPanic
| drain_done s p s1 p1 calls :
    processBatch s p = BatchReturned s1 p1 calls false None ->
    drain s p [false] calls s1 p1 PassOk
| drain_more s p s1 p1 calls mores calls' s2 p2 r :
    processBatch s p = BatchReturned s1 p1 calls true None ->
    drain s1 p1 mores calls' s2 p2 r ->
    drain s p (true :: mores) (calls ++ calls') s2 p2 r.

(** [PumpOutbox(ctx)], [now] being [o.config.Clock.Now()]. *)
Inductive PumpOutbox (now : Z) : St -> PS -> list bool ->
                      list (string * list Message) -> St -> PS -> pass_result -> Prop :=
| pump_claim_err s p s1 e :
    ClaimEntries storage s (ProcessorID_cfg cfg) (now + ClaimDuration cfg) = (s1, Some e) ->
    PumpOutbox now s p [] [] s1 p (PassErr (Wrap "error claiming entries" e))
| pump_claimed s p s1 mores calls s2 p2 r :
    ClaimEntries storage s (ProcessorID_cfg cfg) (now + ClaimDuration cfg) = (s1, None) ->
    drain s1 p mores calls s2 p2 r ->
    PumpOutbox now s p mores calls s2 p2 r.

End Processor.

(** ** The wake channel (pkg/outbox/outbox.go) *)

(** [o.wakeSignal]: a nil channel, or a channel of capacity 1 with the
    number of queued tokens. *)
Inductive wake_chan : Type :=
| ChanNil
| ChanBuf (queued : nat).

(** The channel made by [New]. *)
Definition new_wake_chan : wake_chan := ChanBuf 0.

(** [WakeProcessor]: returns nothing; the [select] with a [default] case
    drops the token when the buffer is full. *)
Definition WakeProcessor (c : wake_chan) : wake_chan :=
  match c with
  | ChanNil => ChanNil
  | ChanBuf n => if Nat.ltb n 1 then ChanBuf (S n) else ChanBuf n
  end.

Definition queued_tokens (c : wake_chan) : nat :=
  match c with
  | ChanNil => 0
  | ChanBuf n => n
  end.

(** ** The fake store as a publisher (pkg/fake/storage.go) *)

(** The entries [EntryStorage.Publish] appends for [messages]: [uuid k] is
    the [k]-th string [uuid.NewString] returns and [clock k] the time
    [e.Clock.Now()] returns when it is read for that same entry (the clock
    is read once per message). *)
Fixpoint publish_entries (uuid : nat -> string) (clock : nat -> Z) (k : nat)
    (messages : list Message) : list Entry :=
  match messages with
  | [] => []
  | message :: rest =>
      mkEntry (uuid k) (clock k) (Message_Key message) (Message_Payload message) "" "" None
        :: publish_entries uuid clock (S k) rest
  end.

(** [EntryStorage.Publish] (its context argument is ignored): the new
    store, the number of entries drawn so far and the returned error. *)
Definition fake_Publish (uuid : nat -> string) (clock : nat -> Z) (k : nat)
    (e : EntryStorage) (messages : list Message) : EntryStorage * nat * option goerr :=
  (mkEntryStorage (fs_now e) (fs_entries e ++ publish_entries uuid clock k messages),
   (k + length messages)%nat, None).

(** [EntryStorage.CountEntries]. *)
Definition CountEntries (e : EntryStorage) : Z := Z.of_nat (length (fs_entries e)).

(** ** Helper notions for the statements *)

(** [subseq l1 l2]: [l1] is [l2] with some elements left out. *)
Inductive subseq {A : Type} : list A -> list A -> Prop :=
| subseq_nil : subseq [] []
| subseq_skip x l1 l2 : subseq l1 l2 -> subseq l1 (x :: l2)
| subseq_take x l1 l2 : subseq l1 l2 -> subseq (x :: l1) (x :: l2).

(** The elements of [l] at the positions where [errs] holds nil. *)
Fixpoint nil_positions {A : Type} (errs : list (option goerr)) (l : list A) : list A :=
  match errs, l with
  | None :: errs', x :: l' => x :: nil_positions errs' l'
  | Some _ :: errs', _ :: l' => nil_positions errs' l'
  | _, _ => []
  end.

(** The namespaces of a list, each once, in order of first appearance. *)
Definition dedup_first (l : list string) : list string :=
  fold_left (fun acc k => if existsb (String.eqb k) acc then acc else acc ++ [k]) l [].

(** One group per distinct namespace of [entries], in order of first
    appearance, holding the messages of that namespace's entries in fetch
    order. *)
Definition ns_groups (entries : list Entry) : list (string * list Message) :=
  map (fun k => (k, map entry_message
                      (filter (fun e => String.eqb (Namespace e) k) entries)))
    (dedup_first (map Namespace entries)).


(** The entry is owned by processor [pid] (the test of
    [GetClaimedEntries]). *)
Definition owned_by (pid : string) (e : Entry) : bool :=
  String.eqb (ProcessorID e) pid.


(** ** Sample inputs *)

(** Store, publisher and processor ID "p1" set, everything else unset. *)
Definition cfg_p1 : Config :=
  mkConfig None (Some "store"%string) (Some "publisher"%string) 0 0 "p1" 0 None.

(** As [cfg_p1] with negative durations. *)
Definition cfg_negative : Config :=
  mkConfig None (Some "store"%string) (Some "publisher"%string) (-5) (-7) "p1" (-3) None.

(** A running configuration with processor ID "p1" and batch size 5. *)
Definition cfg_run : Config :=
  mkConfig (Some RealClock) (Some "store"%string) (Some "publisher"%string)
    DefaultProcessInterval DefaultClaimDuration "p1" 5 (Some DiscardLogger).

(** Two entries claimed by "p1", in namespaces [ns_a] and [ns_b]. *)
Definition entry_in (id ns : string) : Entry :=
  mkEntry id 0 [] [] ns "p1" (Some 100).

Definition store_with (entries : list Entry) : EntryStorage :=
  mkEntryStorage 50 entries.

(** A publisher whose first message of each call fails and the rest
    succeed, reported as a positional [PublishError]. *)
Definition publish_first_fails (p : unit) (_ : Context) (msgs : list Message)
    : unit * option goerr :=
  (p, Some (PubErr (match msgs with
                    | [] => []
                    | _ :: rest => Some (Other "rejected") :: map (fun _ => None) rest
                    end))).

(** A publisher that never fails and remembers every message it received. *)
Definition publish_record (p : list Message) (_ : Context) (msgs : list Message)
    : list Message * option goerr :=
  (p ++ msgs, None).

(** A publisher that fails every call with a non-positional error. *)
Definition publish_broker_down (p : unit) (_ : Context) (_ : list Message)
    : unit * option goerr :=
  (p, Some (Other "broker down")).

(** The fake store with a [DeleteEntries] that always fails. *)
Definition failing_delete_storage : ProcessorStorage EntryStorage :=
  mkProcessorStorage EntryStorage fake_ClaimEntries fake_GetClaimedEntries
    (fun e _ => (e, Some (Other "delete failed"))).

(** [cfg_run] with a batch size of 1. *)
Definition cfg_b1 : Config :=
  mkConfig (Some RealClock) (Some "store"%string) (Some "publisher"%string)
    DefaultProcessInterval DefaultClaimDuration "p1" 1 (Some DiscardLogger).

(** The configuration of the repository's outbox test. *)
Definition cfg_test : Config :=
  mkConfig (Some (FakeClock "clockwork")) (Some "store"%string) (Some "publisher"%string)
    (10 * Second) (5 * Second) "test" 5 (Some (SomeLogger "outbox")).

(** The entry [EntryStorage.Publish] writes for the message with key
    "test-key" and payload "test-payload": no processor, no deadline. *)
Definition test_entry : Entry :=
  mkEntry "9b2f" 0 (list_byte_of_string "test-key") (list_byte_of_string "test-payload")
    "" "" None.

(** A store with one entry under a live lease of processor "p2" and one
    unclaimed entry. *)
Definition leased_and_free : EntryStorage :=
  store_with [mkEntry "x" 0 [] [] "" "p2" (Some 100); test_entry].

(** The first strings a [uuid.NewString] sequence may return. *)
Definition uuid_sample (i : nat) : string :=
  match i with
  | O => "6f1c"
  | S O => "a204"
  | S (S O) => "c9e7"
  | _ => "0000"
  end%string.

Definition three_messages : list Message :=
  [mkMessage (list_byte_of_string "k1") (list_byte_of_string "v1");
   mkMessage (list_byte_of_string "k2") (list_byte_of_string "v2");
   mkMessage (list_byte_of_string "k3") (list_byte_of_string "v3")].

(** [context.Background()]. *)
Definition background : Context := [].

(** A context carrying settings, as code of the package builds it:
    [contextWithSettings(context.Background(), &ContextSettings{})]. *)
Definition settings_ctx : Context := contextWithSettings [] (mkContextSettings "").

(** One of the orders Go's [range] may visit a map in: insertion order. *)
Definition insertion_order (m : list (string * list Message)) : list (string * list Message) :=
  m.

(** * Properties *)

(** ** Configuration *)

(** A required field of the configuration is missing. *)
Definition required_missing (c : Config) : Prop :=
  Storage c = None \/ Publisher c = None \/ ProcessorID_cfg c = ""%string.

(** Every optional field is left at Go's zero value. *)
Definition optional_unset (c : Config) : Prop :=
  Clock c = None /\ Logger c = None /\ ProcessInterval c = 0 /\
  ClaimDuration c = 0 /\ BatchSize c = 0.

Lemma classic_missing (c : Config) : required_missing c \/ ~ required_missing c.
Proof.
  unfold required_missing.
  destruct (Storage c) as [x|]; [|left; left; reflexivity].
  destruct (Publisher c) as [y|]; [|left; right; left; reflexivity].
  destruct (String.eqb_spec (ProcessorID_cfg c) "") as [E|E];
    [left; right; right; exact E|].
  right. intros [H|[H|H]]; [discriminate|discriminate|contradiction].
Qed.

Lemma DefaultAndValidate_ok (c : Config) :
  ~ required_missing c ->
  DefaultAndValidate c =
    (mkConfig (match Clock c with None => Some RealClock | Some k => Some k end)
       (Storage c) (Publisher c)
       (if ProcessInterval c =? 0 then DefaultProcessInterval else ProcessInterval c)
       (if ClaimDuration c =? 0 then DefaultClaimDuration else ClaimDuration c)
       (ProcessorID_cfg c)
       (if BatchSize c <? 1 then DefaultBatchSize else BatchSize c)
       (match Logger c with None => Some DiscardLogger | Some l => Some l end),
     None).
Proof.
  intros Hm. unfold DefaultAndValidate, required_missing in *.
  destruct (Storage c); [|tauto]. destruct (Publisher c); [|tauto].
  destruct (String.eqb_spec (ProcessorID_cfg c) ""); [tauto|reflexivity].
Qed.

Lemma DefaultAndValidate_err (c : Config) :
  required_missing c -> exists msg, DefaultAndValidate c = (c, Some msg).
Proof.
  unfold DefaultAndValidate, required_missing.
  intros [H|[H|H]]; rewrite ?H.
  - eexists; reflexivity.
  - destruct (Storage c); eexists; reflexivity.
  - destruct (Storage c); [|eexists; reflexivity].
    destruct (Publisher c); [|eexists; reflexivity].
    eexists; reflexivity.
Qed.

(** C5: [DefaultAndValidate] (and [New]) fails exactly when [Storage],
    [Publisher] or [ProcessorID] is missing; with every optional field unset
    it yields BatchSize 20, ProcessInterval 10s, ClaimDuration 2s, the real
    clock and the discard logger; any BatchSize below 1 becomes 20. *)
Theorem DefaultAndValidate_C5 (c : Config) :
  ((exists msg, snd (DefaultAndValidate c) = Some msg) <-> required_missing c) /\
  ((exists msg, New c = (None, Some msg)) <-> required_missing c) /\
  (~ required_missing c -> optional_unset c ->
     exists c', DefaultAndValidate c = (c', None) /\
       BatchSize c' = 20 /\ ProcessInterval c' = 10 * Second /\
       ClaimDuration c' = 2 * Second /\ Clock c' = Some RealClock /\
       Logger c' = Some DiscardLogger) /\
  (~ required_missing c -> BatchSize c < 1 ->
     exists c', DefaultAndValidate c = (c', None) /\ BatchSize c' = DefaultBatchSize).
Proof.
  assert (Hiff : (exists msg, snd (DefaultAndValidate c) = Some msg) <-> required_missing c).
  { split.
    - intros [msg Hmsg]. destruct (classic_missing c) as [Hm|Hm]; [exact Hm|].
      rewrite (DefaultAndValidate_ok c Hm) in Hmsg. discriminate.
    - intros Hm. destruct (DefaultAndValidate_err c Hm) as [msg ->]. now exists msg. }
  split; [exact Hiff|]. split; [|split].
  - unfold New. split.
    + intros [msg Hmsg]. apply Hiff. destruct (DefaultAndValidate c) as [c' [m|]];
        [now exists m | discriminate].
    + intros Hm. destruct (DefaultAndValidate_err c Hm) as [msg ->]. eexists; reflexivity.
  - intros Hm (Hc & Hl & Hpi & Hcd & Hbs). rewrite (DefaultAndValidate_ok c Hm).
    eexists; split; [reflexivity|]. simpl. rewrite Hc, Hl, Hpi, Hcd, Hbs.
    repeat split; reflexivity.
  - intros Hm Hbs. rewrite (DefaultAndValidate_ok c Hm).
    eexists; split; [reflexivity|]. simpl.
    destruct (Z.ltb_spec (BatchSize c) 1); [reflexivity|lia].
Qed.

(** C6: [DefaultAndValidate] is idempotent: when it succeeds, a second
    application succeeds too and changes no field. *)
Theorem DefaultAndValidate_idempotent (c c1 : Config) :
  DefaultAndValidate c = (c1, None) -> DefaultAndValidate c1 = (c1, None).
Proof.
  intros H. destruct (classic_missing c) as [Hm|Hm].
  { destruct (DefaultAndValidate_err c Hm) as [msg E]. congruence. }
  rewrite (DefaultAndValidate_ok c Hm) in H. injection H as <-.
  unfold DefaultAndValidate, required_missing in *; simpl.
  destruct (Storage c) as [x|]; [|tauto]. destruct (Publisher c) as [y|]; [|tauto].
  destruct (String.eqb_spec (ProcessorID_cfg c) "") as [E|E]; [tauto|].
  destruct (Clock c), (Logger c); simpl;
  destruct (Z.eqb_spec (ProcessInterval c) 0); destruct (Z.eqb_spec (ClaimDuration c) 0);
  destruct (Z.ltb_spec (BatchSize c) 1); simpl;
  repeat match goal with
         | |- context [?a =? ?b] => destruct (Z.eqb_spec a b)
         | |- context [?a <? ?b] => destruct (Z.ltb_spec a b)
         end;
  unfold DefaultProcessInterval, DefaultClaimDuration, DefaultBatchSize, Second in *;
  first [reflexivity | lia].
Qed.

Lemma DefaultAndValidate_idempotent_witness :
  DefaultAndValidate cfg_p1 = (fst (DefaultAndValidate cfg_p1), None) /\
  DefaultAndValidate (fst (DefaultAndValidate cfg_p1)) =
    (fst (DefaultAndValidate cfg_p1), None).
Proof.
  split; [reflexivity|].
  apply (DefaultAndValidate_idempotent cfg_p1). reflexivity.
Defined.

Lemma DefaultAndValidate_C5_witness :
  ~ required_missing cfg_p1 /\ optional_unset cfg_p1 /\ BatchSize cfg_p1 < 1 /\
  exists c', DefaultAndValidate cfg_p1 = (c', None) /\
    BatchSize c' = 20 /\ ProcessInterval c' = 10 * Second /\
    ClaimDuration c' = 2 * Second /\ Clock c' = Some RealClock /\
    Logger c' = Some DiscardLogger.
Proof.
  assert (Hm : ~ required_missing cfg_p1).
  { unfold required_missing; simpl. intros [H|[H|H]]; discriminate. }
  assert (Hu : optional_unset cfg_p1) by (repeat split).
  split; [exact Hm|]. split; [exact Hu|]. split; [simpl; lia|].
  exact (proj1 (proj2 (proj2 (DefaultAndValidate_C5 cfg_p1))) Hm Hu).
Defined.

(** C10: [ProcessInterval] and [ClaimDuration] are defaulted only when
    exactly zero, so negative values pass validation unchanged, while every
    [BatchSize] below 1 is replaced by the default. *)
Theorem DefaultAndValidate_negative_durations (c : Config) :
  ~ required_missing c -> ProcessInterval c < 0 \/ ClaimDuration c < 0 ->
  exists c', DefaultAndValidate c = (c', None) /\
    (ProcessInterval c < 0 -> ProcessInterval c' = ProcessInterval c) /\
    (ClaimDuration c < 0 -> ClaimDuration c' = ClaimDuration c) /\
    (BatchSize c < 1 -> BatchSize c' = DefaultBatchSize).
Proof.
  intros Hm _. rewrite (DefaultAndValidate_ok c Hm).
  eexists; split; [reflexivity|]. simpl. repeat split; intros Hlt.
  - destruct (Z.eqb_spec (ProcessInterval c) 0); [lia|reflexivity].
  - destruct (Z.eqb_spec (ClaimDuration c) 0); [lia|reflexivity].
  - destruct (Z.ltb_spec (BatchSize c) 1); [reflexivity|lia].
Qed.

Lemma DefaultAndValidate_negative_durations_witness :
  ProcessInterval cfg_negative < 0 /\ ClaimDuration cfg_negative < 0 /\
  exists c', DefaultAndValidate cfg_negative = (c', None) /\
    (ProcessInterval cfg_negative < 0 -> ProcessInterval c' = ProcessInterval cfg_negative) /\
    (ClaimDuration cfg_negative < 0 -> ClaimDuration c' = ClaimDuration cfg_negative) /\
    (BatchSize cfg_negative < 1 -> BatchSize c' = DefaultBatchSize).
Proof.
  split; [simpl; lia|]. split; [simpl; lia|].
  apply DefaultAndValidate_negative_durations.
  - unfold required_missing; simpl. intros [H|[H|H]]; discriminate.
  - left; simpl; lia.
Defined.

(** ** Wake signal *)

(** C7: [WakeProcessor] is a total function with no error result (its
    [select] has a [default] case, so it never waits); from any channel state
    holding at most one token, any number of calls with no receive in
    between leaves at most one token queued; a call with a token already
    pending, or on a nil channel, changes nothing. *)
Theorem WakeProcessor_coalesces (c : wake_chan) (n : nat) :
  (queued_tokens c <= 1)%nat ->
  (queued_tokens (Nat.iter n WakeProcessor c) <= 1)%nat /\
  (queued_tokens c = 1%nat \/ c = ChanNil -> WakeProcessor c = c).
Proof.
  intros Hc. split.
  - induction n as [|n IH]; [exact Hc|].
    simpl. destruct (Nat.iter n WakeProcessor c) as [|k]; simpl in *; [lia|].
    destruct (Nat.ltb_spec k 1); simpl; lia.
  - intros [H|H]; [|subst; reflexivity].
    destruct c as [|k]; [reflexivity|]. simpl in H. subst. reflexivity.
Qed.

Lemma WakeProcessor_coalesces_witness :
  (queued_tokens new_wake_chan <= 1)%nat /\
  (queued_tokens (Nat.iter 5 WakeProcessor new_wake_chan) <= 1)%nat /\
  (queued_tokens new_wake_chan = 1%nat \/ new_wake_chan = ChanNil ->
   WakeProcessor new_wake_chan = new_wake_chan).
Proof.
  split; [simpl; lia|]. apply WakeProcessor_coalesces. simpl; lia.
Defined.

(** ** Claiming in the fake store *)

(** The spec's eligibility for claim: no processor, no deadline, or a
    deadline that has passed ([now] is not before it). *)
Definition claim_eligible (now : Z) (e : Entry) : Prop :=
  ProcessorID e = ""%string \/ ProcessingDeadline e = None \/
  exists d, ProcessingDeadline e = Some d /\ d <= now.

Lemma claim_entry_spec (now : Z) (pid : string) (deadline : Z) (e : Entry) :
  (claim_eligible now e ->
     claim_entry now pid deadline e =
       mkEntry (ID e) (CreatedAt e) (Key e) (Payload e) (Namespace e) pid (Some deadline)) /\
  (~ claim_eligible now e -> claim_entry now pid deadline e = e).
Proof.
  unfold claim_entry, claim_eligible.
  destruct (String.eqb_spec (ProcessorID e) "") as [Hp|Hp]; simpl.
  - split; [reflexivity|]. intros H. exfalso. apply H. left. exact Hp.
  - destruct (ProcessingDeadline e) as [d|] eqn:Hd.
    + destruct (Z.ltb_spec now d) as [Hlt|Hge]; simpl.
      * split.
        -- intros [H|[H|[d' [H1 H2]]]]; [contradiction|discriminate|].
           injection H1 as <-. lia.
        -- reflexivity.
      * split; [reflexivity|]. intros H. exfalso. apply H. right. right.
        exists d. split; [reflexivity|lia].
    + split; [reflexivity|]. intros H. exfalso. apply H. right. left. reflexivity.
Qed.

(** C8: [EntryStorage.ClaimEntries] succeeds, keeps the entries in place,
    gives every eligible entry to [pid] with deadline [deadline] (other
    fields unchanged), and leaves every other entry unchanged. *)
Theorem fake_ClaimEntries_post (st : EntryStorage) (pid : string) (deadline : Z) :
  let st' := fst (fake_ClaimEntries st pid deadline) in
  snd (fake_ClaimEntries st pid deadline) = None /\
  length (fs_entries st') = length (fs_entries st) /\
  forall i e, nth_error (fs_entries st) i = Some e ->
    (claim_eligible (fs_now st) e ->
       nth_error (fs_entries st') i =
         Some (mkEntry (ID e) (CreatedAt e) (Key e) (Payload e) (Namespace e)
                 pid (Some deadline))) /\
    (~ claim_eligible (fs_now st) e -> nth_error (fs_entries st') i = Some e).
Proof.
  simpl. split; [reflexivity|]. split; [apply length_map|].
  intros i e Hi. rewrite nth_error_map, Hi. simpl.
  destruct (claim_entry_spec (fs_now st) pid deadline e) as [H1 H2].
  split; intros H; f_equal; auto.
Qed.

Lemma fake_ClaimEntries_post_witness :
  let e0 := mkEntry "id1" 0 [] [] "" "other" (Some 100) in
  let st := mkEntryStorage 50 [e0] in
  nth_error (fs_entries st) 0 = Some e0 /\ ~ claim_eligible (fs_now st) e0 /\
  nth_error (fs_entries (fst (fake_ClaimEntries st "p1" 70))) 0 = Some e0.
Proof.
  intros e0 st.
  assert (Hn : ~ claim_eligible (fs_now st) e0).
  { unfold claim_eligible; simpl. intros [H|[H|[d [H1 H2]]]]; try discriminate.
    injection H1 as <-. lia. }
  split; [reflexivity|]. split; [exact Hn|].
  destruct (fake_ClaimEntries_post st "p1" 70) as [_ [_ H]].
  exact (proj2 (H 0%nat e0 eq_refl) Hn).
Defined.

(** ** Lists: subsequences and positional selection *)

Lemma subseq_nil_l {A : Type} (l : list A) : subseq [] l.
Proof. induction l; constructor; assumption. Qed.

Lemma subseq_refl {A : Type} (l : list A) : subseq l l.
Proof. induction l; constructor; assumption. Qed.

Lemma subseq_In {A : Type} (l1 l2 : list A) (x : A) :
  subseq l1 l2 -> In x l1 -> In x l2.
Proof.
  intros H. induction H; simpl; auto. intros [->|Hx]; auto.
Qed.

Lemma subseq_map {A B : Type} (f : A -> B) (l1 l2 : list A) :
  subseq l1 l2 -> subseq (map f l1) (map f l2).
Proof. intros H. induction H; simpl; constructor; assumption. Qed.

Lemma subseq_NoDup {A : Type} (l1 l2 : list A) :
  subseq l1 l2 -> NoDup l2 -> NoDup l1.
Proof.
  intros H. induction H; intros Hn; [constructor| |].
  - inversion Hn; auto.
  - inversion Hn as [|y l Hy Hl]; subst. constructor; auto.
    intros Hx. apply Hy. eapply subseq_In; eauto.
Qed.

Lemma subseq_trans {A : Type} (l1 l2 l3 : list A) :
  subseq l1 l2 -> subseq l2 l3 -> subseq l1 l3.
Proof.
  intros H12 H23. revert l1 H12. induction H23 as [|x l2 l3 H23 IH|x l2 l3 H23 IH];
    intros l0 H0.
  - inversion H0; constructor.
  - apply subseq_skip. apply IH. exact H0.
  - inversion H0 as [|y l1' l2' H|y l1' l2' H]; subst.
    + apply subseq_skip. apply IH. exact H.
    + apply subseq_take. apply IH. exact H.
Qed.

Lemma subseq_length {A : Type} (l1 l2 : list A) :
  subseq l1 l2 -> (length l1 <= length l2)%nat.
Proof. intros H. induction H; simpl; lia. Qed.

Lemma subseq_app_l {A : Type} (l1 l2 l : list A) :
  subseq l1 l -> subseq (l1 ++ l2) (l ++ l2).
Proof.
  intros H. induction H; simpl.
  - apply subseq_refl.
  - apply subseq_skip. exact IHsubseq.
  - apply subseq_take. exact IHsubseq.
Qed.

Lemma nil_positions_subseq {A : Type} (errs : list (option goerr)) (l : list A) :
  subseq (nil_positions errs l) l.
Proof.
  revert l. induction errs as [|o errs IH]; intros l; [apply subseq_nil_l|].
  destruct l as [|x l]; [destruct o; constructor|]. destruct o; simpl.
  - apply subseq_skip. apply IH.
  - apply subseq_take. apply IH.
Qed.

Lemma nil_positions_length {A : Type} (errs : list (option goerr)) (l : list A) :
  length errs = length l ->
  length (nil_positions errs l) = (length l - ErrorCount errs)%nat.
Proof.
  revert l. induction errs as [|o errs IH]; intros l Hl;
    [destruct l; [reflexivity|discriminate]|].
  destruct l as [|x l]; [discriminate|]. simpl in Hl. injection Hl as Hl.
  unfold ErrorCount in *. destruct o; cbn [nil_positions filter List.length];
    rewrite IH by exact Hl; [reflexivity|].
  pose proof (filter_length_le
    (fun o : option goerr => match o with Some _ => true | None => false end) errs).
  lia.
Qed.

Lemma nil_positions_In {A : Type} (errs : list (option goerr)) (l : list A) i e :
  nth_error l i = Some e -> nth_error errs i = Some None ->
  In e (nil_positions errs l).
Proof.
  revert errs l. induction i as [|i IH]; intros errs l Hl He.
  - destruct l as [|x l]; [discriminate|]. destruct errs as [|o errs]; [discriminate|].
    simpl in *. injection Hl as ->. injection He as ->. left. reflexivity.
  - destruct l as [|x l]; [discriminate|]. destruct errs as [|o errs]; [discriminate|].
    simpl in *. destruct o; [|right]; apply IH; assumption.
Qed.

Lemma nil_positions_In_inv {A : Type} (errs : list (option goerr)) (l : list A) e :
  In e (nil_positions errs l) ->
  exists i, nth_error l i = Some e /\ nth_error errs i = Some None.
Proof.
  revert l. induction errs as [|o errs IH]; intros l Hin; [destruct l; contradiction|].
  destruct l as [|x l]; [destruct o; contradiction|].
  destruct o as [g|]; simpl in Hin.
  - destruct (IH l Hin) as [i Hi]. exists (S i). exact Hi.
  - destruct Hin as [<-|Hin].
    + exists 0%nat. split; reflexivity.
    + destruct (IH l Hin) as [i Hi]. exists (S i). exact Hi.
Qed.

Lemma nil_positions_not_In {A : Type} (f : A -> string) (errs : list (option goerr))
    (l : list A) i e g :
  NoDup (map f l) -> nth_error l i = Some e -> nth_error errs i = Some (Some g) ->
  ~ In (f e) (map f (nil_positions errs l)).
Proof.
  revert errs i. induction l as [|x l IH]; intros errs i Hnd Hl He;
    [destruct i; discriminate|].
  simpl in Hnd. inversion Hnd as [|y m Hx Hnd']; subst.
  destruct errs as [|o errs]; [destruct i; discriminate|].
  destruct i as [|i].
  - simpl in Hl, He. injection Hl as ->. injection He as ->. simpl.
    intros Hin. apply Hx. apply (subseq_In _ _ _ (subseq_map f _ _ (nil_positions_subseq errs l)) Hin).
  - simpl in Hl, He. destruct o as [g'|]; simpl.
    + exact (IH errs i Hnd' Hl He).
    + intros [Heq|Hin].
      * apply Hx. rewrite Heq. apply in_map. apply nth_error_In with i. exact Hl.
      * exact (IH errs i Hnd' Hl He Hin).
Qed.

Lemma deletable_from_nil_positions (errs : list (option goerr)) (ids : list string) :
  length errs = length ids -> deletable_from errs ids = Some (nil_positions errs ids).
Proof.
  revert ids. induction errs as [|o errs IH]; intros ids Hl;
    [destruct ids; [reflexivity|discriminate]|].
  destruct ids as [|x ids]; [discriminate|]. simpl in Hl. injection Hl as Hl.
  destruct o; simpl; rewrite IH by exact Hl; reflexivity.
Qed.

Lemma id_listed_In (D : list string) (e : Entry) :
  id_listed D e = true <-> In (ID e) D.
Proof.
  unfold id_listed. rewrite existsb_exists. split.
  - intros [i [Hi Heq]]. apply String.eqb_eq in Heq. subst. exact Hi.
  - intros Hin. exists (ID e). split; [exact Hin|]. apply String.eqb_refl.
Qed.

(** The fake store's [GetClaimedEntries] returns entries of the store, in
    store order, all owned by the given processor. *)
Lemma get_claimed_loop_spec (pid : string) (bs : Z) (acc l : list Entry) :
  exists r, get_claimed_loop pid bs acc l = acc ++ r /\ subseq r l /\
            Forall (fun e => ProcessorID e = pid) r.
Proof.
  revert acc. induction l as [|x l IH]; intros acc.
  - exists []. rewrite app_nil_r. split; [reflexivity|]. split; constructor.
  - simpl. destruct (String.eqb_spec (ProcessorID x) pid) as [Hx|Hx]; simpl.
    + destruct (Z.of_nat (length (acc ++ [x])) >=? bs).
      * exists [x]. split; [reflexivity|]. split.
        -- apply subseq_take. apply subseq_nil_l.
        -- constructor; [exact Hx|constructor].
      * destruct (IH (acc ++ [x])) as [r [Hr [Hs Hf]]].
        exists (x :: r). rewrite Hr, <- app_assoc. split; [reflexivity|].
        split; [apply subseq_take; exact Hs|constructor; assumption].
    + destruct (IH acc) as [r [Hr [Hs Hf]]]. exists r.
      split; [exact Hr|]. split; [apply subseq_skip; exact Hs|exact Hf].
Qed.

(** Deleting the IDs of a subsequence of a store with unique IDs removes
    exactly that many entries. *)
Lemma delete_subseq_length (F L : list Entry) :
  subseq F L -> NoDup (map ID L) ->
  length (filter (fun e => negb (id_listed (map ID F) e)) L) = (length L - length F)%nat.
Proof.
  intros H. induction H as [|x F L H IH|x F L H IH]; intros Hnd; [reflexivity| |].
  - simpl in Hnd. inversion Hnd as [|y m Hx Hnd']; subst. cbn [filter].
    destruct (id_listed (map ID F) x) eqn:Hl.
    + exfalso. apply Hx. apply id_listed_In in Hl.
      exact (subseq_In _ _ _ (subseq_map ID _ _ H) Hl).
    + cbn [negb List.length]. rewrite IH by exact Hnd'.
      pose proof (subseq_length _ _ H). lia.
  - simpl in Hnd. inversion Hnd as [|y m Hx Hnd']; subst. cbn [filter map].
    assert (Hself : id_listed (ID x :: map ID F) x = true)
      by (apply id_listed_In; left; reflexivity).
    rewrite Hself. cbn [negb List.length]. rewrite Nat.sub_succ, <- IH by exact Hnd'.
    apply f_equal. apply filter_ext_in. intros e He.
    unfold id_listed. simpl. destruct (String.eqb_spec (ID x) (ID e)) as [E|E]; [|reflexivity].
    exfalso. apply Hx. rewrite E. apply in_map. exact He.
Qed.

Lemma nil_positions_map {A B : Type} (f : A -> B) (errs : list (option goerr)) (l : list A) :
  nil_positions errs (map f l) = map f (nil_positions errs l).
Proof.
  revert l. induction errs as [|o errs IH]; intros l; [reflexivity|].
  destruct l as [|x l]; [destruct o; reflexivity|].
  destruct o; simpl; rewrite IH; reflexivity.
Qed.

Lemma NoDup_map_same {A B : Type} (f : A -> B) (l : list A) (a b : A) :
  NoDup (map f l) -> In a l -> In b l -> f a = f b -> a = b.
Proof.
  induction l as [|x l IH]; intros Hnd Ha Hb Hf; [contradiction|].
  simpl in Hnd. inversion Hnd as [|y m Hx Hnd']; subst.
  destruct Ha as [<-|Ha]; destruct Hb as [<-|Hb]; auto.
  - exfalso. apply Hx. rewrite Hf. apply in_map. exact Hb.
  - exfalso. apply Hx. rewrite <- Hf. apply in_map. exact Ha.
Qed.

(** ** Process batch: partial failure *)

(** C1: when the publish step fails with a positional [PublishError] whose
    [Errors] has one position per fetched entry, [K] of them non-nil, the
    batch deletes from the fake store exactly the entries at nil positions
    ([N - K] of them, nothing else), and the entries at non-nil positions
    stay in the store, still owned by this processor. *)
Theorem processBatch_partial_failure {PS : Type}
    (Publish : PS -> Context -> list Message -> PS * option goerr)
    (map_iter : list (string * list Message) -> list (string * list Message))
    (cfg : Config) (ctx : Context) (st : EntryStorage) (p p1 : PS)
    (calls : list (string * list Message)) (pe : goerr) (errs : list (option goerr)) :
  let fetched := fst (fake_GetClaimedEntries st (ProcessorID_cfg cfg) (BatchSize cfg)) in
  NoDup (map ID (fs_entries st)) ->
  publish_loop Publish ctx p (map_iter (namespaced fetched)) = (p1, calls, Returns (Some pe)) ->
  errors_As pe = Some errs ->
  length errs = length fetched ->
  exists st' more err,
    processBatch fake_storage Publish map_iter cfg ctx st p = BatchReturned st' p1 calls more err /\
    (length (fs_entries st) - length (fs_entries st') = length fetched - ErrorCount errs)%nat /\
    (forall i e, nth_error fetched i = Some e -> nth_error errs i = Some None ->
       In e (fs_entries st) /\ ~ In e (fs_entries st')) /\
    (forall i e g, nth_error fetched i = Some e -> nth_error errs i = Some (Some g) ->
       In e (fs_entries st') /\ ProcessorID e = ProcessorID_cfg cfg) /\
    (forall e, In e (fs_entries st) -> ~ In e (fs_entries st') ->
       exists i, nth_error fetched i = Some e /\ nth_error errs i = Some None).
Proof.
  intros fetched Hnd Hpub Has Hlen.
  destruct (get_claimed_loop_spec (ProcessorID_cfg cfg) (BatchSize cfg) [] (fs_entries st))
    as [r [Hr [Hs Hf]]].
  simpl in Hr.
  assert (Hfe : fetched = r) by (unfold fetched; simpl; exact Hr).
  rewrite Hfe in *.
  set (F := nil_positions errs r).
  set (keep := fun e => negb (id_listed (map ID F) e)).
  exists (mkEntryStorage (fs_now st) (filter keep (fs_entries st))).
  unfold processBatch. cbn [GetClaimedEntries DeleteEntries fake_storage].
  unfold fake_GetClaimedEntries. rewrite Hr.
  rewrite Hpub. unfold deletable_ids. cbn [option_map errors_As]. rewrite Has.
  rewrite deletable_from_nil_positions by (rewrite length_map; exact Hlen).
  rewrite nil_positions_map. fold F.
  do 2 eexists. split; [reflexivity|]. cbn [fs_entries].
  assert (HFs : subseq F (fs_entries st)) by (eapply subseq_trans; [apply nil_positions_subseq|exact Hs]).
  assert (Hndr : NoDup (map ID r)) by (eapply subseq_NoDup; [apply subseq_map; exact Hs|exact Hnd]).
  split; [|split; [|split]].
  - unfold keep. rewrite (delete_subseq_length F _ HFs Hnd).
    unfold F. rewrite nil_positions_length by exact Hlen.
    pose proof (subseq_length _ _ Hs). pose proof (subseq_length _ _ (nil_positions_subseq errs r)) as HF.
    fold F in HF. lia.
  - intros i e Hi He. split.
    + eapply subseq_In; [exact Hs|]. eapply nth_error_In; exact Hi.
    + intros Hin. apply filter_In in Hin as [_ Hk]. unfold keep in Hk.
      assert (HinF : In e F) by (eapply nil_positions_In; eassumption).
      assert (Hl : id_listed (map ID F) e = true) by (apply id_listed_In, in_map, HinF).
      rewrite Hl in Hk. discriminate.
  - intros i e g Hi He. split.
    + apply filter_In. split; [eapply subseq_In; [exact Hs|]; eapply nth_error_In; exact Hi|].
      unfold keep. destruct (id_listed (map ID F) e) eqn:Hl; [|reflexivity].
      exfalso. apply id_listed_In in Hl.
      exact (nil_positions_not_In ID errs r i e g Hndr Hi He Hl).
    + rewrite Forall_forall in Hf. apply Hf. eapply nth_error_In; exact Hi.
  - intros e Hin Hout.
    destruct (keep e) eqn:Hk.
    + exfalso. apply Hout. apply filter_In. split; assumption.
    + unfold keep in Hk. apply negb_false_iff, id_listed_In, in_map_iff in Hk.
      destruct Hk as [e' [Hid He']].
      assert (e' = e).
      { apply (NoDup_map_same ID (fs_entries st)); auto. eapply subseq_In; eassumption. }
      subst e'. apply nil_positions_In_inv. exact He'.
Qed.

Lemma processBatch_partial_failure_witness :
  let st := store_with [entry_in "a" ""; entry_in "b" ""] in
  let fetched := fst (fake_GetClaimedEntries st (ProcessorID_cfg cfg_run) (BatchSize cfg_run)) in
  let errs := [Some (Other "rejected"); None] in
  NoDup (map ID (fs_entries st)) /\
  publish_loop publish_first_fails settings_ctx tt (insertion_order (namespaced fetched)) =
    (tt, [(""%string, [mkMessage [] []; mkMessage [] []])], Returns (Some (PubErr errs))) /\
  errors_As (PubErr errs) = Some errs /\ length errs = length fetched /\
  exists st' more err,
    processBatch fake_storage publish_first_fails insertion_order cfg_run settings_ctx st tt =
      BatchReturned st' tt [(""%string, [mkMessage [] []; mkMessage [] []])] more err /\
    (length (fs_entries st) - length (fs_entries st') = length fetched - ErrorCount errs)%nat.
Proof.
  intros st fetched errs.
  assert (Hnd : NoDup (map ID (fs_entries st))).
  { simpl. constructor; [simpl; intros [H|H]; [discriminate|exact H]|].
    constructor; [intros []|constructor]. }
  split; [exact Hnd|]. split; [reflexivity|]. split; [reflexivity|]. split; [reflexivity|].
  destruct (processBatch_partial_failure publish_first_fails insertion_order cfg_run settings_ctx st tt tt
              [(""%string, [mkMessage [] []; mkMessage [] []])] (PubErr errs) errs
              Hnd eq_refl eq_refl eq_refl) as [st' [more [err [H1 [H2 _]]]]].
  exists st', more, err. split; assumption.
Defined.

(** ** Process batch: non-positional publish failure *)

(** C3: when the publish step fails with an error that neither is nor wraps
    a [PublishError], [processBatch] calls [DeleteEntries] with no IDs (the
    fake store then deletes nothing); if that call fails, the returned error
    is the [multierr] combination of the publish error and the delete
    error; otherwise it is the publish error. *)
Theorem processBatch_other_publish_error {St PS : Type} (storage : ProcessorStorage St)
    (Publish : PS -> Context -> list Message -> PS * option goerr)
    (map_iter : list (string * list Message) -> list (string * list Message))
    (cfg : Config) (ctx : Context) (s : St) (p p1 : PS) (entries : list Entry)
    (calls : list (string * list Message)) (pe : goerr) :
  GetClaimedEntries storage s (ProcessorID_cfg cfg) (BatchSize cfg) = (entries, None) ->
  publish_loop Publish ctx p (map_iter (namespaced entries)) = (p1, calls, Returns (Some pe)) ->
  errors_As pe = None ->
  let more := Z.of_nat (length entries) >=? BatchSize cfg in
  let publishErr := Wrap "error publishing" pe in
  (snd (DeleteEntries storage s []) = None ->
     processBatch storage Publish map_iter cfg ctx s p =
       BatchReturned (fst (DeleteEntries storage s [])) p1 calls more (Some publishErr)) /\
  (forall deleteErr, snd (DeleteEntries storage s []) = Some deleteErr ->
     processBatch storage Publish map_iter cfg ctx s p =
       BatchReturned (fst (DeleteEntries storage s [])) p1 calls more
         (Some (Multi (publishErr :: multierr_errors deleteErr)))) /\
  (forall st : EntryStorage, fake_DeleteEntries st [] = (st, None)).
Proof.
  intros Hget Hpub Has more publishErr.
  assert (Hpb : processBatch storage Publish map_iter cfg ctx s p =
            let '(s1, deleteErr) := DeleteEntries storage s [] in
            BatchReturned s1 p1 calls more
              (match deleteErr with
               | None => Some publishErr
               | Some d => Some (multierr_Combine (Some publishErr) d)
               end)).
  { unfold processBatch. rewrite Hget, Hpub. unfold deletable_ids.
    cbn [option_map errors_As]. rewrite Has. reflexivity. }
  split; [|split].
  - intros Hd. rewrite Hpb. destruct (DeleteEntries storage s []) as [s1 d].
    simpl in Hd. subst d. reflexivity.
  - intros d Hd. rewrite Hpb. destruct (DeleteEntries storage s []) as [s1 d'].
    simpl in Hd. subst d'. reflexivity.
  - intros st. unfold fake_DeleteEntries. destruct st as [now es]. simpl.
    do 3 f_equal. induction es as [|e es IH]; simpl; [reflexivity|]. rewrite IH. reflexivity.
Qed.

Lemma processBatch_other_publish_error_witness :
  let st := store_with [entry_in "a" ""] in
  GetClaimedEntries failing_delete_storage st (ProcessorID_cfg cfg_run) (BatchSize cfg_run) =
    ([entry_in "a" ""], None) /\
  publish_loop publish_broker_down settings_ctx tt (insertion_order (namespaced [entry_in "a" ""])) =
    (tt, [(""%string, [mkMessage [] []])], Returns (Some (Other "broker down"))) /\
  errors_As (Other "broker down") = None /\
  processBatch failing_delete_storage publish_broker_down insertion_order cfg_run settings_ctx st tt =
    BatchReturned st tt [(""%string, [mkMessage [] []])] false
      (Some (Multi [Wrap "error publishing" (Other "broker down"); Other "delete failed"])).
Proof.
  intros st.
  split; [reflexivity|]. split; [reflexivity|]. split; [reflexivity|].
  exact (proj1 (proj2 (processBatch_other_publish_error failing_delete_storage
           publish_broker_down insertion_order cfg_run settings_ctx st tt tt [entry_in "a" ""]
           [(""%string, [mkMessage [] []])] (Other "broker down") eq_refl eq_refl eq_refl))
           (Other "delete failed") eq_refl).
Defined.

(** ** Process batch: the publish calls *)

Lemma existsb_eqb_In (k : string) (l : list string) :
  existsb (String.eqb k) l = true <-> In k l.
Proof.
  rewrite existsb_exists. split.
  - intros [x [Hx Heq]]. apply String.eqb_eq in Heq. subst. exact Hx.
  - intros Hk. exists k. split; [exact Hk|apply String.eqb_refl].
Qed.

Lemma dedup_first_snoc (l : list string) (k : string) :
  dedup_first (l ++ [k]) =
  if existsb (String.eqb k) (dedup_first l) then dedup_first l else dedup_first l ++ [k].
Proof. unfold dedup_first. rewrite fold_left_app. reflexivity. Qed.

Lemma dedup_first_spec (l : list string) :
  NoDup (dedup_first l) /\ forall k, In k (dedup_first l) <-> In k l.
Proof.
  induction l as [|k l IH] using rev_ind.
  - split; [constructor|]. intros k; split; intros [].
  - destruct IH as [Hnd Hin]. rewrite dedup_first_snoc.
    destruct (existsb (String.eqb k) (dedup_first l)) eqn:Hk.
    + apply existsb_eqb_In in Hk. split; [exact Hnd|].
      intros x. rewrite Hin, in_app_iff. simpl. split; [tauto|].
      intros [H|[<-|[]]]; [exact H|apply Hin; exact Hk].
    + split.
      * apply NoDup_app; [exact Hnd|constructor; [intros []|constructor]|].
        intros a Ha [<-|[]]. rewrite <- existsb_eqb_In in Ha. congruence.
      * intros x. rewrite !in_app_iff, Hin. reflexivity.
Qed.

Lemma filter_none {A : Type} (f : A -> bool) (l : list A) :
  (forall x, In x l -> f x = false) -> filter f l = [].
Proof.
  induction l as [|x l IH]; intros H; [reflexivity|]. simpl.
  rewrite (H x (or_introl eq_refl)). apply IH. intros y Hy. apply H. right. exact Hy.
Qed.

Lemma filter_all {A : Type} (f : A -> bool) (l : list A) :
  (forall x, In x l -> f x = true) -> filter f l = l.
Proof.
  induction l as [|x l IH]; intros H; [reflexivity|]. simpl.
  rewrite (H x (or_introl eq_refl)), IH; [reflexivity|]. intros y Hy. apply H. right. exact Hy.
Qed.

Lemma ns_append_groups (G : string -> list Message) (keys : list string) (k0 : string)
    (m : Message) :
  NoDup keys -> (~ In k0 keys -> G k0 = []) ->
  ns_append (map (fun k => (k, G k)) keys) k0 m =
  map (fun k => (k, G k ++ (if String.eqb k k0 then [m] else [])))
    (if existsb (String.eqb k0) keys then keys else keys ++ [k0]).
Proof.
  induction keys as [|k ks IH]; intros Hnd HG.
  - simpl. rewrite String.eqb_refl, HG by (intros []). reflexivity.
  - inversion Hnd as [|y l Hk Hnd']; subst. simpl.
    destruct (String.eqb_spec k0 k) as [->|Hne]; simpl.
    + rewrite String.eqb_refl. f_equal. apply map_ext_in. intros x Hx.
      destruct (String.eqb_spec x k) as [->|]; [contradiction|]. rewrite app_nil_r. reflexivity.
    + rewrite IH by (assumption || (intros Hn; apply HG; intros [E|E]; [congruence|contradiction])).
      destruct (existsb (String.eqb k0) ks); simpl;
        destruct (String.eqb_spec k k0) as [E|_]; try congruence;
        rewrite app_nil_r; reflexivity.
Qed.

(** The [namespaced] map holds one group per distinct namespace, in order of
    first appearance, with that namespace's messages in fetch order. *)
Lemma namespaced_groups (entries : list Entry) : namespaced entries = ns_groups entries.
Proof.
  induction entries as [|e l IH] using rev_ind; [reflexivity|].
  unfold namespaced. rewrite fold_left_app. fold (namespaced l). rewrite IH.
  simpl. unfold ns_groups.
  destruct (dedup_first_spec (map Namespace l)) as [Hnd Hin].
  rewrite ns_append_groups.
  - replace (map Namespace (l ++ [e])) with (map Namespace l ++ [Namespace e])
      by (rewrite map_app; reflexivity).
    rewrite dedup_first_snoc.
    apply map_ext. intros k. rewrite filter_app, map_app. simpl.
    rewrite String.eqb_sym. destruct (String.eqb (Namespace e) k); reflexivity.
  - exact Hnd.
  - intros Hk. rewrite filter_none; [reflexivity|]. intros x Hx.
    destruct (String.eqb_spec (Namespace x) (Namespace e)) as [E|]; [|reflexivity].
    exfalso. apply Hk. apply Hin. rewrite <- E. apply in_map. exact Hx.
Qed.

(** ** The publish loop and the context *)

Lemma WithNamespace_Panics (ctx : Context) (ns : string) :
  WithNamespace ctx ns = Panics <-> settingsFromContext ctx = Panics.
Proof.
  unfold WithNamespace, augmentContextSettings.
  destruct (settingsFromContext ctx); split; intros H; (reflexivity || discriminate).
Qed.

Lemma WithNamespace_Returns (ctx : Context) (ns : string) :
  settingsFromContext ctx <> Panics -> exists c, WithNamespace ctx ns = Returns c.
Proof.
  intros H. unfold WithNamespace, augmentContextSettings.
  destruct (settingsFromContext ctx); [eexists; reflexivity|exfalso; apply H; reflexivity].
Qed.

(** On a context without settings the loop panics at its first group,
    before any [Publish] call. *)
Lemma publish_loop_panic {PS : Type} (Publish : PS -> Context -> list Message -> PS * option goerr)
    (ctx : Context) (p : PS) (groups : list (string * list Message)) :
  settingsFromContext ctx = Panics -> groups <> [] ->
  publish_loop Publish ctx p groups = (p, [], Panics).
Proof.
  intros H Hg. destruct groups as [|[ns msgs] gs]; [contradiction|]. simpl.
  rewrite (proj2 (WithNamespace_Panics ctx ns) H). reflexivity.
Qed.


Lemma publish_loop_prefix {PS : Type} (Publish : PS -> Context -> list Message -> PS * option goerr)
    (ctx : Context) (p : PS) (groups : list (string * list Message)) :
  let '(_, calls, r) := publish_loop Publish ctx p groups in
  (exists rest, calls ++ rest = groups) /\ (r = Returns None -> calls = groups).
Proof.
  revert p. induction groups as [|[ns msgs] gs IH]; intros p; simpl.
  - split; [exists []; reflexivity|reflexivity].
  - destruct (WithNamespace ctx ns) as [c|].
    + destruct (Publish p c msgs) as [p1 [e|]].
      * split; [exists gs; reflexivity|discriminate].
      * specialize (IH p1). destruct (publish_loop Publish ctx p1 gs) as [[p2 calls] r].
        destruct IH as [[rest Hr] Hn]. split.
        -- exists rest. simpl. rewrite Hr. reflexivity.
        -- intros He. rewrite Hn by exact He. reflexivity.
    + split; [exists ((ns, msgs) :: gs); reflexivity|discriminate].
Qed.

Lemma namespaced_nil (entries : list Entry) : namespaced entries = [] -> entries = [].
Proof.
  intros H. destruct entries as [|e es]; [reflexivity|]. exfalso.
  rewrite namespaced_groups in H. unfold ns_groups in H.
  destruct (dedup_first_spec (map Namespace (e :: es))) as [_ Hin].
  assert (Hk : In (Namespace e) (dedup_first (map Namespace (e :: es))))
    by (apply Hin; left; reflexivity).
  destruct (dedup_first (map Namespace (e :: es))); [contradiction|discriminate].
Qed.

Lemma map_iter_nonnil (map_iter : list (string * list Message) -> list (string * list Message))
    (entries : list Entry) :
  (forall g, Permutation (map_iter g) g) -> entries <> [] -> map_iter (namespaced entries) <> [].
Proof.
  intros Hiter Hne Hm. apply Hne, namespaced_nil.
  apply Permutation_nil. rewrite <- Hm. first [apply Hiter|apply Permutation_sym, Hiter].
Qed.

(** A batch on a context without settings: the publish loop panics before
    any [Publish] call, the deferred function sees a nil [err] and passes
    every fetched ID to [DeleteEntries], and the panic leaves
    [processBatch]. *)
Lemma processBatch_ctx_panic {St PS : Type} (storage : ProcessorStorage St)
    (Publish : PS -> Context -> list Message -> PS * option goerr)
    (map_iter : list (string * list Message) -> list (string * list Message))
    (cfg : Config) (ctx : Context) (s : St) (p : PS) (entries : list Entry) :
  settingsFromContext ctx = Panics ->
  GetClaimedEntries storage s (ProcessorID_cfg cfg) (BatchSize cfg) = (entries, None) ->
  map_iter (namespaced entries) <> [] ->
  processBatch storage Publish map_iter cfg ctx s p =
  BatchPanicked (fst (DeleteEntries storage s (map ID entries))) p [].
Proof.
  intros Hc Hget Hne. unfold processBatch. rewrite Hget.
  rewrite (publish_loop_panic Publish ctx p _ Hc Hne). cbn [deletable_ids].
  destruct (DeleteEntries storage s (map ID entries)); reflexivity.
Qed.


Lemma NoDup_only (d : list string) (k : string) :
  NoDup d -> (forall x, In x d <-> x = k) -> d = [k].
Proof.
  intros Hnd H. destruct d as [|a [|b d]].
  - exfalso. apply (proj2 (H k) eq_refl).
  - rewrite (proj1 (H a) (or_introl eq_refl)). reflexivity.
  - exfalso. inversion Hnd as [|y l Ha _]; subst. apply Ha. left.
    rewrite (proj1 (H a) (or_introl eq_refl)).
    apply (proj1 (H b)). right. left. reflexivity.
Qed.




(** ** The fake store under an error-free publisher *)

Lemma filter_subseq {A : Type} (f : A -> bool) (l : list A) : subseq (filter f l) l.
Proof.
  induction l as [|x l IH]; simpl; [constructor|].
  destruct (f x); constructor; exact IH.
Qed.

Lemma firstn_subseq {A : Type} (n : nat) (l : list A) : subseq (firstn n l) l.
Proof.
  revert l. induction n as [|n IH]; intros l; [apply subseq_nil_l|].
  destruct l as [|x l]; simpl; [constructor|]. apply subseq_take. apply IH.
Qed.

Lemma filter_comm {A : Type} (f g : A -> bool) (l : list A) :
  filter f (filter g l) = filter g (filter f l).
Proof.
  induction l as [|x l IH]; [reflexivity|]. simpl.
  destruct (g x) eqn:Hg, (f x) eqn:Hf; simpl; rewrite ?Hg, ?Hf, IH; reflexivity.
Qed.

Lemma get_claimed_loop_firstn (pid : string) (B : Z) (acc L : list Entry) :
  Z.of_nat (length acc) < B ->
  get_claimed_loop pid B acc L =
  acc ++ firstn (Z.to_nat B - length acc) (filter (owned_by pid) L).
Proof.
  revert acc. induction L as [|x L IH]; intros acc Hacc.
  - simpl. rewrite firstn_nil, app_nil_r. reflexivity.
  - simpl. destruct (owned_by pid x) eqn:Ho; pose proof Ho as Hx; unfold owned_by in Hx;
      rewrite Hx; simpl.
    + rewrite length_app. simpl.
      destruct (Z.geb_spec (Z.of_nat (length acc + 1)) B) as [Hge|Hlt].
      * replace (Z.to_nat B - length acc)%nat with 1%nat by lia. reflexivity.
      * rewrite IH by (rewrite length_app; simpl; lia). rewrite <- app_assoc. simpl.
        rewrite length_app. simpl.
        replace (Z.to_nat B - length acc)%nat with (S (Z.to_nat B - (length acc + 1)))%nat by lia.
        reflexivity.
    + apply IH. exact Hacc.
Qed.

Lemma publish_loop_ok {PS : Type} (Publish : PS -> Context -> list Message -> PS * option goerr)
    (ctx : Context) (p : PS) (groups : list (string * list Message)) :
  settingsFromContext ctx <> Panics ->
  (forall p c msgs, snd (Publish p c msgs) = None) ->
  exists p', publish_loop Publish ctx p groups = (p', groups, Returns None).
Proof.
  intros Hc Hok. revert p. induction groups as [|[ns msgs] gs IH]; intros p; simpl.
  - exists p. reflexivity.
  - destruct (WithNamespace_Returns ctx ns Hc) as [c ->].
    pose proof (Hok p c msgs) as H. destruct (Publish p c msgs) as [p1 e].
    simpl in H. subst e. destruct (IH p1) as [p' ->]. exists p'. reflexivity.
Qed.

Lemma fake_GetClaimedEntries_firstn (cfg : Config) (now : Z) (L : list Entry) :
  1 <= BatchSize cfg ->
  fake_GetClaimedEntries (mkEntryStorage now L) (ProcessorID_cfg cfg) (BatchSize cfg) =
  (firstn (Z.to_nat (BatchSize cfg)) (filter (owned_by (ProcessorID_cfg cfg)) L), None).
Proof.
  intros HB. unfold fake_GetClaimedEntries. simpl. rewrite get_claimed_loop_firstn by (simpl; lia).
  simpl. rewrite Nat.sub_0_r. reflexivity.
Qed.

(** One batch of the fake store under an error-free publisher, on a
    context that carries settings: the first [BatchSize] entries owned by
    the processor are published and deleted, and [more] says whether there
    were at least [BatchSize] of them. *)
Lemma fake_processBatch_ok {PS : Type}
    (Publish : PS -> Context -> list Message -> PS * option goerr)
    (map_iter : list (string * list Message) -> list (string * list Message))
    (cfg : Config) (ctx : Context) (now : Z) (L : list Entry) (p : PS) :
  settingsFromContext ctx <> Panics ->
  (forall p c msgs, snd (Publish p c msgs) = None) -> 1 <= BatchSize cfg ->
  let F := firstn (Z.to_nat (BatchSize cfg)) (filter (owned_by (ProcessorID_cfg cfg)) L) in
  processBatch fake_storage Publish map_iter cfg ctx (mkEntryStorage now L) p =
  BatchReturned (mkEntryStorage now (filter (fun e => negb (id_listed (map ID F) e)) L))
      (fst (fst (publish_loop Publish ctx p (map_iter (namespaced F)))))
      (map_iter (namespaced F))
      (Z.to_nat (BatchSize cfg) <=? length (filter (owned_by (ProcessorID_cfg cfg)) L))%nat None.
Proof.
  intros Hc Hok HB F.
  unfold processBatch. cbn [GetClaimedEntries fake_storage].
  rewrite (fake_GetClaimedEntries_firstn cfg now L HB). fold F.
  destruct (publish_loop_ok Publish ctx p (map_iter (namespaced F)) Hc Hok) as [p' Hp].
  rewrite Hp. simpl. f_equal.
  unfold F. rewrite length_firstn.
  set (n := length (filter (owned_by (ProcessorID_cfg cfg)) L)).
  destruct (Nat.leb_spec (Z.to_nat (BatchSize cfg)) n);
    destruct (Z.geb_spec (Z.of_nat (Nat.min (Z.to_nat (BatchSize cfg)) n)) (BatchSize cfg));
    first [reflexivity | lia].
Qed.

(** One batch of the fake store on a context without settings, when the
    processor owns at least one entry: nothing is published, the fetched
    entries (the first [BatchSize] it owns) are deleted, and the batch
    panics. *)
Lemma fake_processBatch_panic {PS : Type}
    (Publish : PS -> Context -> list Message -> PS * option goerr)
    (map_iter : list (string * list Message) -> list (string * list Message))
    (cfg : Config) (ctx : Context) (now : Z) (L : list Entry) (p : PS) :
  settingsFromContext ctx = Panics -> (forall g, Permutation (map_iter g) g) ->
  1 <= BatchSize cfg ->
  let F := firstn (Z.to_nat (BatchSize cfg)) (filter (owned_by (ProcessorID_cfg cfg)) L) in
  F <> [] ->
  processBatch fake_storage Publish map_iter cfg ctx (mkEntryStorage now L) p =
  BatchPanicked (mkEntryStorage now (filter (fun e => negb (id_listed (map ID F) e)) L)) p [].
Proof.
  intros Hc Hiter HB F HF.
  rewrite (processBatch_ctx_panic fake_storage Publish map_iter cfg ctx _ p F Hc
             (fake_GetClaimedEntries_firstn cfg now L HB) (map_iter_nonnil map_iter F Hiter HF)).
  reflexivity.
Qed.

Lemma NoDup_app_disjoint {A : Type} (l1 l2 : list A) (a : A) :
  NoDup (l1 ++ l2) -> In a l1 -> In a l2 -> False.
Proof.
  induction l1 as [|x l1 IH]; intros Hnd H1 H2; [exact H1|].
  simpl in Hnd. inversion Hnd as [|y m Hx Hnd']; subst.
  destruct H1 as [<-|H1]; [apply Hx; apply in_or_app; right; exact H2|].
  exact (IH Hnd' H1 H2).
Qed.

(** Deleting the IDs of the first [b] owned entries leaves the remaining
    owned entries, in order. *)
Lemma delete_first_owned (pid : string) (b : nat) (L : list Entry) :
  NoDup (map ID L) ->
  let F := firstn b (filter (owned_by pid) L) in
  filter (owned_by pid) (filter (fun e => negb (id_listed (map ID F) e)) L) =
  skipn b (filter (owned_by pid) L).
Proof.
  intros Hnd F. rewrite filter_comm.
  set (O := filter (owned_by pid) L) in *.
  assert (HO : O = F ++ skipn b O) by (unfold F; symmetry; apply firstn_skipn).
  assert (HndO : NoDup (map ID F ++ map ID (skipn b O))).
  { rewrite <- map_app, <- HO.
    eapply subseq_NoDup; [apply subseq_map, filter_subseq|exact Hnd]. }
  rewrite HO at 1. rewrite filter_app.
  rewrite filter_none, filter_all; [reflexivity| |].
  - intros x Hx. destruct (id_listed (map ID F) x) eqn:Hl; [|reflexivity].
    exfalso. apply id_listed_In in Hl.
    apply (NoDup_app_disjoint _ _ (ID x) HndO Hl). apply in_map. exact Hx.
  - intros x Hx. assert (Hl : id_listed (map ID F) x = true)
      by (apply id_listed_In, in_map, Hx). rewrite Hl. reflexivity.
Qed.

Lemma drain_det {St PS : Type} (storage : ProcessorStorage St)
    (Publish : PS -> Context -> list Message -> PS * option goerr)
    (map_iter : list (string * list Message) -> list (string * list Message))
    (cfg : Config) (ctx : Context) s p m1 c1 s1 p1 r1 m2 c2 s2 p2 r2 :
  drain storage Publish map_iter cfg ctx s p m1 c1 s1 p1 r1 ->
  drain storage Publish map_iter cfg ctx s p m2 c2 s2 p2 r2 ->
  m1 = m2 /\ c1 = c2 /\ s1 = s2 /\ p1 = p2 /\ r1 = r2.
Proof.
  intros H1. revert m2 c2 s2 p2 r2.
  induction H1 as [s p s1 p1 calls more e Hb|s p s1 p1 calls Hb|s p s1 p1 calls Hb
                  |s p s1 p1 calls mores calls' s2 p2 r Hb Hd IH];
    intros m2 c2 s2' p2' r2 H2;
    inversion H2 as [s' p' s1' p1' calls1 more1 e1 Hb1|s' p' s1' p1' calls1 Hb1
                    |s' p' s1' p1' calls1 Hb1|s' p' s1' p1' calls1 mores1 calls1' s3 p3 r3 Hb1 Hd1];
    subst; rewrite Hb in Hb1; try discriminate; injection Hb1; intros; subst;
    try (repeat split; reflexivity).
  destruct (IH _ _ _ _ _ Hd1) as (-> & -> & -> & -> & ->). repeat split; reflexivity.
Qed.

Lemma PumpOutbox_det {St PS : Type} (storage : ProcessorStorage St)
    (Publish : PS -> Context -> list Message -> PS * option goerr)
    (map_iter : list (string * list Message) -> list (string * list Message))
    (cfg : Config) (ctx : Context) now s p m1 c1 s1 p1 r1 m2 c2 s2 p2 r2 :
  PumpOutbox storage Publish map_iter cfg ctx now s p m1 c1 s1 p1 r1 ->
  PumpOutbox storage Publish map_iter cfg ctx now s p m2 c2 s2 p2 r2 ->
  m1 = m2 /\ c1 = c2 /\ s1 = s2 /\ p1 = p2 /\ r1 = r2.
Proof.
  intros H1 H2. destruct H1 as [s p s1 e Hc|s p s1 m c s' p' r Hc Hd];
    inversion H2 as [s0 p0 s3 e3 Hc3|s0 p0 s3 m3 c3 s4 p4 r4 Hc3 Hd3]; subst;
    rewrite Hc in Hc3; try discriminate; injection Hc3; intros; subst.
  - repeat split; reflexivity.
  - exact (drain_det storage Publish map_iter cfg ctx _ _ _ _ _ _ _ _ _ _ _ _ Hd Hd3).
Qed.

Section FakeDrain.

Context {PS : Type}.
Variable Publish : PS -> Context -> list Message -> PS * option goerr.
Variable map_iter : list (string * list Message) -> list (string * list Message).
Variable cfg : Config.
Variable ctx : Context.
Hypothesis ctx_settings : settingsFromContext ctx <> Panics.
Hypothesis Publish_ok : forall p c msgs, snd (Publish p c msgs) = None.
Hypothesis BatchSize_pos : 1 <= BatchSize cfg.

(** Draining a fake store holding [n] entries owned by the processor:
    [n / BatchSize + 1] batches, all but the last reporting [more], and no
    owned entry left. *)
Lemma drain_fake (now : Z) : forall n L p,
  length (filter (owned_by (ProcessorID_cfg cfg)) L) = n -> NoDup (map ID L) ->
  exists mores calls L' p',
    drain fake_storage Publish map_iter cfg ctx (mkEntryStorage now L) p mores calls
      (mkEntryStorage now L') p' PassOk /\
    length mores = (n / Z.to_nat (BatchSize cfg) + 1)%nat /\
    last mores true = false /\ (forall m, In m (removelast mores) -> m = true) /\
    filter (owned_by (ProcessorID_cfg cfg)) L' = [] /\ length L' = (length L - n)%nat.
Proof.
  intros n. induction n as [n IH] using lt_wf_ind. intros L p Hn Hnd.
  set (pid := ProcessorID_cfg cfg) in *.
  set (b := Z.to_nat (BatchSize cfg)) in *.
  assert (Hb : (1 <= b)%nat) by (unfold b; lia).
  set (O := filter (owned_by pid) L) in *.
  set (F := firstn b O).
  pose proof (fake_processBatch_ok Publish map_iter cfg ctx now L p ctx_settings Publish_ok
                BatchSize_pos) as Hpb.
  cbv zeta in Hpb. fold pid b O F in Hpb.
  set (p1 := fst (fst (publish_loop Publish ctx p (map_iter (namespaced F))))) in Hpb.
  set (L1 := filter (fun e => negb (id_listed (map ID F) e)) L) in *.
  assert (HO1 : filter (owned_by pid) L1 = skipn b O) by exact (delete_first_owned pid b L Hnd).
  assert (Hnd1 : NoDup (map ID L1))
    by (eapply subseq_NoDup; [apply subseq_map, filter_subseq|exact Hnd]).
  assert (HFL : subseq F L) by (eapply subseq_trans; [apply firstn_subseq|apply filter_subseq]).
  assert (Hlen1 : length L1 = (length L - length F)%nat) by exact (delete_subseq_length F L HFL Hnd).
  assert (HOL : (length O <= length L)%nat) by (apply subseq_length, filter_subseq).
  assert (HF : length F = Nat.min b n) by (unfold F; rewrite length_firstn; rewrite Hn; reflexivity).
  destruct (Nat.leb_spec b n) as [Hge|Hlt]; rewrite Hn in Hpb.
  - assert (Hn1 : length (filter (owned_by pid) L1) = (n - b)%nat)
      by (rewrite HO1, length_skipn; lia).
    destruct (IH (n - b)%nat ltac:(lia) L1 p1 Hn1 Hnd1)
      as (mores & calls & L' & p' & Hd & Hlm & Hlast & Hrm & Hown & HL').
    assert (Hleb : (b <=? n)%nat = true) by (apply Nat.leb_le; exact Hge).
    rewrite Hleb in Hpb.
    exists (true :: mores), (map_iter (namespaced F) ++ calls), L', p'.
    split; [eapply drain_more; [exact Hpb|exact Hd]|].
    destruct mores as [|m ms]; [simpl in Hlm; lia|].
    split; [|split; [|split; [|split]]].
    + simpl length in *. rewrite Hlm.
      replace n with (1 * b + (n - b))%nat at 2 by lia.
      rewrite Nat.div_add_l by lia. lia.
    + exact Hlast.
    + intros x Hx. change (removelast (true :: m :: ms)) with (true :: removelast (m :: ms)) in Hx.
      destruct Hx as [<-|Hx]; [reflexivity|exact (Hrm x Hx)].
    + exact Hown.
    + rewrite HL', Hlen1, HF. lia.
  - assert (Hleb : (b <=? n)%nat = false) by (apply Nat.leb_gt; exact Hlt).
    rewrite Hleb in Hpb.
    exists [false], (map_iter (namespaced F)), L1, p1.
    split; [apply drain_done; exact Hpb|].
    split; [|split; [reflexivity|split; [intros x []|split]]].
    + rewrite Nat.div_small by lia. reflexivity.
    + rewrite HO1. apply skipn_all2. lia.
    + rewrite Hlen1, HF. lia.
Qed.

End FakeDrain.

(** ** Claim and drain *)

Lemma fake_ClaimEntries_ids (st : EntryStorage) (pid : string) (deadline : Z) :
  map ID (fs_entries (fst (fake_ClaimEntries st pid deadline))) = map ID (fs_entries st).
Proof.
  simpl. rewrite map_map. apply map_ext. intros e. unfold claim_entry.
  destruct (_ && _); reflexivity.
Qed.

(** A batch of the fake store in which the processor owns nothing: with any
    publisher and on any context, nothing is published or deleted and
    [more] is false. *)
Lemma fake_processBatch_none_owned {PS : Type}
    (Publish : PS -> Context -> list Message -> PS * option goerr)
    (map_iter : list (string * list Message) -> list (string * list Message))
    (cfg : Config) (ctx : Context) (now : Z) (L : list Entry) (p : PS) :
  (forall g, Permutation (map_iter g) g) -> 1 <= BatchSize cfg ->
  filter (owned_by (ProcessorID_cfg cfg)) L = [] ->
  processBatch fake_storage Publish map_iter cfg ctx (mkEntryStorage now L) p =
  BatchReturned (mkEntryStorage now L) p [] false None.
Proof.
  intros Hiter HB Hnone. unfold processBatch.
  cbn [GetClaimedEntries fake_storage].
  rewrite (fake_GetClaimedEntries_firstn cfg now L HB), Hnone, firstn_nil.
  change (namespaced []) with (@nil (string * list Message)).
  assert (Hm : map_iter [] = []) by (apply Permutation_nil, Permutation_sym, Hiter).
  rewrite Hm. simpl.
  replace (0 >=? BatchSize cfg) with false by (symmetry; rewrite Z.geb_leb; apply Z.leb_gt; lia).
  rewrite filter_all by (intros x _; reflexivity). reflexivity.
Qed.




(** ** One entry through a pass *)

(** C9 (the code diverges from it), on the repository test's input: the
    configuration of the test (processor "test", batch size 5), the fake
    store holding the one entry its [Publish] wrote for the message with
    key "test-key" and payload "test-payload", a recording publisher that
    never fails, and [context.Background()] as the test passes it.  The
    pass does not succeed: the claim gives the entry to "test",
    [processBatch] fetches it, and [WithNamespace] panics in
    [settingsFromContext] before any [Publish] call; the deferred function
    deletes the entry first.  So every pass panics, the publisher receives
    no message and the store ends with no entries. *)
Theorem PumpOutbox_single_entry_background :
  fs_entries (store_with [test_entry]) = [test_entry] /\
  ProcessorID test_entry = ""%string /\
  Key test_entry = list_byte_of_string "test-key" /\
  Payload test_entry = list_byte_of_string "test-payload" /\
  PumpOutbox fake_storage publish_record insertion_order cfg_test background 0
    (store_with [test_entry]) [] [] [] (store_with []) [] PassPanic /\
  (forall mores calls st' p' r,
     PumpOutbox fake_storage publish_record insertion_order cfg_test background 0
       (store_with [test_entry]) [] mores calls st' p' r ->
     r = PassPanic /\ calls = [] /\ p' = [] /\ fs_entries st' = []).
Proof.
  assert (Hrun : PumpOutbox fake_storage publish_record insertion_order cfg_test background 0
    (store_with [test_entry]) [] [] [] (store_with []) [] PassPanic).
  { eapply pump_claimed; [reflexivity|]. apply drain_panic. vm_compute. reflexivity. }
  do 4 (split; [reflexivity|]). split; [exact Hrun|].
  intros mores calls st' p' r H.
  destruct (PumpOutbox_det _ _ _ _ _ _ _ _ _ _ _ _ _ _ _ _ _ _ Hrun H)
    as (_ & <- & <- & <- & <-).
  repeat split; reflexivity.
Qed.

(** ** PublishError.ErrorCount *)

(** [ErrorCount] never exceeds the number of positions, is 0 exactly when
    every position is nil, and with the nil positions accounts for every
    position. *)
Theorem ErrorCount_spec (errs : list (option goerr)) :
  (ErrorCount errs <= length errs)%nat /\
  (ErrorCount errs = 0%nat <-> Forall (fun o => o = None) errs) /\
  (forall (l : list string), length l = length errs ->
     (ErrorCount errs + length (nil_positions errs l))%nat = length errs).
Proof.
  split; [|split].
  - apply filter_length_le.
  - unfold ErrorCount. induction errs as [|o errs IH]; simpl; [split; constructor|].
    destruct o as [g|]; simpl.
    + split; [discriminate|]. intros H. inversion H. discriminate.
    + rewrite IH. split; [intros H; constructor; [reflexivity|exact H]|].
      intros H. inversion H. assumption.
  - intros l Hl. rewrite nil_positions_length by (symmetry; exact Hl).
    pose proof (filter_length_le
      (fun o : option goerr => match o with Some _ => true | None => false end) errs).
    unfold ErrorCount in *. lia.
Qed.

(** ** Context settings *)

(** [WithNamespace] on a context that carries a [*ContextSettings] (even a
    nil one) returns a context whose [NamespaceFromContext] is the given
    namespace, which carries settings again (so calls nest, the innermost
    namespace winning), and in which every other key looks up as before. *)
Theorem WithNamespace_NamespaceFromContext (ctx : Context) (c : option ContextSettings)
    (ns : string) :
  ctx_Value ctx SettingsKey = Some (SettingsPtr c) ->
  exists ctx', WithNamespace ctx ns = Returns ctx' /\
    NamespaceFromContext ctx' = Returns ns /\
    ctx_Value ctx' SettingsKey = Some (SettingsPtr (Some (mkContextSettings ns))) /\
    (forall k, k <> SettingsKey -> ctx_Value ctx' k = ctx_Value ctx k).
Proof.
  intros Hc. unfold WithNamespace, augmentContextSettings, settingsFromContext.
  rewrite Hc. eexists. split; [reflexivity|]. split; [reflexivity|]. split; [reflexivity|].
  intros k Hk. simpl. destruct k; [contradiction|reflexivity].
Qed.

Lemma WithNamespace_NamespaceFromContext_witness :
  ctx_Value [(OtherKey "trace", OtherValue "t1"); (SettingsKey, SettingsPtr None)] SettingsKey
    = Some (SettingsPtr None) /\
  exists ctx', WithNamespace [(OtherKey "trace", OtherValue "t1"); (SettingsKey, SettingsPtr None)]
                 "orders" = Returns ctx' /\ NamespaceFromContext ctx' = Returns "orders"%string.
Proof.
  split; [reflexivity|].
  destruct (WithNamespace_NamespaceFromContext
              [(OtherKey "trace", OtherValue "t1"); (SettingsKey, SettingsPtr None)] None "orders"
              eq_refl) as (ctx' & H1 & H2 & _).
  exists ctx'. split; [exact H1|exact H2].
Defined.

(** [NamespaceFromContext] and [WithNamespace] panic exactly on a context
    that carries no [*ContextSettings] value, for instance
    [context.Background()]: the type assertion in [settingsFromContext] is
    not the comma-ok form, so its [nil] check is never reached for a
    missing value. *)
Theorem NamespaceFromContext_panics (ctx : Context) (ns : string) :
  (NamespaceFromContext ctx = Panics <->
     forall c, ctx_Value ctx SettingsKey <> Some (SettingsPtr c)) /\
  (WithNamespace ctx ns = Panics <->
     forall c, ctx_Value ctx SettingsKey <> Some (SettingsPtr c)) /\
  NamespaceFromContext [] = Panics.
Proof.
  unfold WithNamespace, augmentContextSettings, NamespaceFromContext, settingsFromContext.
  destruct (ctx_Value ctx SettingsKey) as [[c|v]|].
  - split; [|split; [|reflexivity]]; split.
    + intros H. destruct c; discriminate.
    + intros H. exfalso. exact (H c eq_refl).
    + intros H. discriminate.
    + intros H. exfalso. exact (H c eq_refl).
  - repeat split; intros; discriminate.
  - repeat split; intros; discriminate.
Qed.

(** ** The fake store's operations *)

Lemma publish_entries_spec (uuid : nat -> string) (clock : nat -> Z) (k : nat)
    (msgs : list Message) :
  length (publish_entries uuid clock k msgs) = length msgs /\
  map entry_message (publish_entries uuid clock k msgs) = msgs /\
  map ID (publish_entries uuid clock k msgs) = map uuid (seq k (length msgs)) /\
  map CreatedAt (publish_entries uuid clock k msgs) = map clock (seq k (length msgs)) /\
  Forall (fun x => ProcessorID x = ""%string /\ ProcessingDeadline x = None /\
                   Namespace x = ""%string)
    (publish_entries uuid clock k msgs).
Proof.
  revert k. induction msgs as [|[mk mp] msgs IH]; intros k; simpl.
  - repeat split; constructor.
  - destruct (IH (S k)) as (H1 & H2 & H3 & H4 & H5).
    rewrite H1, H2, H3, H4. repeat split; try reflexivity. constructor; [|exact H5].
    repeat split; reflexivity.
Qed.

(** [EntryStorage.Publish] never fails; it keeps the stored entries and
    appends one entry per message, in order, carrying that message's key
    and payload, a fresh UUID, the clock's time read for that message, the
    empty namespace, and no processor and no deadline (so any processor
    claims it, at any time); the entry count grows by the number of
    messages. *)
Theorem fake_Publish_appends (uuid : nat -> string) (clock : nat -> Z) (k : nat)
    (e : EntryStorage) (msgs : list Message) :
  let '(e', k', err) := fake_Publish uuid clock k e msgs in
  err = None /\ k' = (k + length msgs)%nat /\
  CountEntries e' = CountEntries e + Z.of_nat (length msgs) /\
  exists added, fs_entries e' = fs_entries e ++ added /\
    map entry_message added = msgs /\ map ID added = map uuid (seq k (length msgs)) /\
    map CreatedAt added = map clock (seq k (length msgs)) /\
    Forall (fun x => ProcessorID x = ""%string /\ ProcessingDeadline x = None /\
                     Namespace x = ""%string) added /\
    (forall now pid deadline x, In x added ->
       claim_entry now pid deadline x =
       mkEntry (ID x) (CreatedAt x) (Key x) (Payload x) (Namespace x) pid (Some deadline)).
Proof.
  simpl. destruct (publish_entries_spec uuid clock k msgs) as (H1 & H2 & H3 & H4 & H5).
  split; [reflexivity|]. split; [reflexivity|].
  split; [unfold CountEntries; simpl; rewrite length_app, H1; lia|].
  exists (publish_entries uuid clock k msgs).
  split; [reflexivity|]. split; [exact H2|]. split; [exact H3|]. split; [exact H4|].
  split; [exact H5|].
  intros now pid deadline x Hx. rewrite Forall_forall in H5. destruct (H5 x Hx) as (Hp & _).
  unfold claim_entry. rewrite Hp. reflexivity.
Qed.

Lemma get_claimed_loop_nonpos (pid : string) (bs : Z) (L : list Entry) :
  bs <= 0 -> get_claimed_loop pid bs [] L = firstn 1 (filter (owned_by pid) L).
Proof.
  intros Hbs. induction L as [|x L IH]; [reflexivity|]. simpl.
  unfold owned_by. destruct (String.eqb (ProcessorID x) pid); simpl; [|exact IH].
  destruct (Z.geb_spec 1 bs); [reflexivity|lia].
Qed.

(** [EntryStorage.GetClaimedEntries] never fails and returns the first
    [batchSize] entries owned by the processor, in store order; a
    [batchSize] below 1 still returns the first owned entry, since the
    length test comes after the append. *)
Theorem fake_GetClaimedEntries_first (e : EntryStorage) (pid : string) (bs : Z) :
  fake_GetClaimedEntries e pid bs =
  (firstn (Nat.max 1 (Z.to_nat bs)) (filter (owned_by pid) (fs_entries e)), None).
Proof.
  unfold fake_GetClaimedEntries. destruct (Z.leb_spec bs 0) as [Hle|Hgt].
  - rewrite get_claimed_loop_nonpos by exact Hle.
    replace (Nat.max 1 (Z.to_nat bs)) with 1%nat by lia. reflexivity.
  - rewrite get_claimed_loop_firstn by (simpl; lia).
    replace (Nat.max 1 (Z.to_nat bs)) with (Z.to_nat bs - length (@nil Entry))%nat
      by (cbn [List.length]; lia). reflexivity.
Qed.

Lemma filter_negb_length {A : Type} (f : A -> bool) (l : list A) :
  (length (filter (fun x => negb (f x)) l) + length (filter f l))%nat = length l.
Proof.
  induction l as [|x l IH]; [reflexivity|]. simpl. destruct (f x); simpl; lia.
Qed.

Lemma filter_andb {A : Type} (f g : A -> bool) (l : list A) :
  filter g (filter f l) = filter (fun x => f x && g x) l.
Proof.
  induction l as [|x l IH]; [reflexivity|]. simpl.
  destruct (f x); simpl; [destruct (g x)|]; rewrite ?IH; reflexivity.
Qed.

(** [EntryStorage.DeleteEntries] never fails; two deletions compose into
    one deletion of both ID lists, and a deletion lowers [CountEntries] by
    the number of stored entries whose ID is listed (IDs not in the store
    are ignored). *)
Theorem fake_DeleteEntries_compose (e : EntryStorage) (a b : list string) :
  snd (fake_DeleteEntries e a) = None /\
  fake_DeleteEntries (fst (fake_DeleteEntries e a)) b = fake_DeleteEntries e (a ++ b) /\
  CountEntries (fst (fake_DeleteEntries e a)) =
    CountEntries e - Z.of_nat (length (filter (id_listed a) (fs_entries e))).
Proof.
  split; [reflexivity|]. split.
  - unfold fake_DeleteEntries. simpl. rewrite filter_andb. f_equal. f_equal.
    apply filter_ext. intros x.
    unfold id_listed. rewrite existsb_app. destruct (existsb _ a), (existsb _ b); reflexivity.
  - unfold CountEntries. simpl.
    pose proof (filter_negb_length (id_listed a) (fs_entries e)). lia.
Qed.

Lemma claim_entry_idem (now : Z) (pid : string) (deadline : Z) (x : Entry) :
  claim_entry now pid deadline (claim_entry now pid deadline x) = claim_entry now pid deadline x.
Proof.
  set (y := claim_entry now pid deadline x).
  assert (Hy : y = x /\ negb (String.eqb (ProcessorID x) "") && match ProcessingDeadline x with
                                     | Some d => now <? d | None => false end = true \/
               y = mkEntry (ID x) (CreatedAt x) (Key x) (Payload x) (Namespace x) pid
                     (Some deadline)).
  { unfold y, claim_entry. destruct (_ && _) eqn:Hx; [left; split; reflexivity|right; reflexivity]. }
  destruct Hy as [[Hyx Hc]|Hy].
  - rewrite Hyx. unfold claim_entry. rewrite Hc. reflexivity.
  - rewrite Hy. unfold claim_entry. cbn [ProcessorID ProcessingDeadline ID CreatedAt Key Payload Namespace].
    destruct (_ && _); reflexivity.
Qed.

(** [EntryStorage.ClaimEntries] never fails, keeps the number and order of
    the entries and every field but the processor and the deadline, and is
    idempotent: claiming again for the same processor and deadline, with
    the store's clock unchanged, changes nothing. *)
Theorem fake_ClaimEntries_idempotent (e : EntryStorage) (pid : string) (deadline : Z) :
  let '(e1, err) := fake_ClaimEntries e pid deadline in
  err = None /\ fake_ClaimEntries e1 pid deadline = (e1, None) /\ fs_now e1 = fs_now e /\
  map (fun x => (ID x, CreatedAt x, Key x, Payload x, Namespace x)) (fs_entries e1) =
  map (fun x => (ID x, CreatedAt x, Key x, Payload x, Namespace x)) (fs_entries e).
Proof.
  simpl. split; [reflexivity|]. split; [|split; [reflexivity|]].
  - unfold fake_ClaimEntries. simpl. rewrite map_map.
    f_equal. f_equal. apply map_ext. intros x. apply claim_entry_idem.
  - rewrite map_map. apply map_ext. intros x. unfold claim_entry.
    destruct (_ && _); reflexivity.
Qed.

(** ** The deferred reconciliation's panic *)




(** ** What a pass over the fake store never does *)

Lemma deletable_from_subseq (errs : list (option goerr)) (ids D : list string) :
  deletable_from errs ids = Some D -> subseq D ids.
Proof.
  revert ids D. induction errs as [|o errs IH]; intros ids D H.
  - injection H as <-. apply subseq_nil_l.
  - destruct ids as [|x r]; destruct o as [g|]; simpl in H.
    + exact (IH [] D H).
    + discriminate.
    + apply subseq_skip. exact (IH r D H).
    + destruct (deletable_from errs r) as [D'|] eqn:HD; [|discriminate].
      injection H as <-. apply subseq_take. exact (IH r D' HD).
Qed.

Lemma deletable_ids_subseq (err : option goerr) (ids D : list string) :
  deletable_ids err ids = Some D -> subseq D ids.
Proof.
  unfold deletable_ids. destruct err as [e|]; [|intros H; injection H as <-; apply subseq_refl].
  destruct (errors_As e) as [errs|]; [apply deletable_from_subseq|].
  intros H. injection H as <-. apply subseq_nil_l.
Qed.

(** One batch over the fake store, with any publisher, on any context and
    whatever its outcome (the panics included): the store only loses
    entries whose ID is among the fetched ones, and the publish calls are a
    prefix of the fetched entries' groups. *)
Lemma fake_processBatch_shape {PS : Type}
    (Publish : PS -> Context -> list Message -> PS * option goerr)
    (map_iter : list (string * list Message) -> list (string * list Message))
    (cfg : Config) (ctx : Context) (now : Z) (L : list Entry) (p : PS) :
  let F := get_claimed_loop (ProcessorID_cfg cfg) (BatchSize cfg) [] L in
  match processBatch fake_storage Publish map_iter cfg ctx (mkEntryStorage now L) p with
  | BatchReturned s1 _ calls _ _ =>
      (exists D, subseq D (map ID F) /\
                 s1 = mkEntryStorage now (filter (fun e => negb (id_listed D e)) L)) /\
      (exists rest, calls ++ rest = map_iter (namespaced F))
  | BatchPanicked s1 _ calls =>
      (exists D, subseq D (map ID F) /\
                 s1 = mkEntryStorage now (filter (fun e => negb (id_listed D e)) L)) /\
      (exists rest, calls ++ rest = map_iter (namespaced F))
  end.
Proof.
  intros F. unfold processBatch. cbn [GetClaimedEntries fake_storage fake_GetClaimedEntries fs_entries].
  fold F.
  pose proof (publish_loop_prefix Publish ctx p (map_iter (namespaced F))) as Hpre.
  destruct (publish_loop Publish ctx p (map_iter (namespaced F))) as [[p1 calls] r].
  destruct Hpre as [Hpre _].
  destruct (deletable_ids _ (map ID F)) as [D|] eqn:HD.
  - destruct r; simpl;
      (split; [exists D; split; [exact (deletable_ids_subseq _ _ _ HD)|reflexivity]|exact Hpre]).
  - split; [|exact Hpre]. exists []. split; [apply subseq_nil_l|].
    rewrite filter_all by (intros x _; reflexivity). reflexivity.
Qed.

Lemma ns_groups_In (F : list Entry) (ns : string) (msgs : list Message) (m : Message) :
  In (ns, msgs) (ns_groups F) -> In m msgs ->
  exists e, In e F /\ Namespace e = ns /\ entry_message e = m.
Proof.
  unfold ns_groups. intros Hg Hm. apply in_map_iff in Hg. destruct Hg as [k [Hk _]].
  injection Hk as <- <-. apply in_map_iff in Hm. destruct Hm as [e [He Hin]].
  apply filter_In in Hin. destruct Hin as [Hin Hns]. apply String.eqb_eq in Hns.
  exists e. split; [exact Hin|]. split; [exact Hns|exact He].
Qed.

Section FakeSafety.

Context {PS : Type}.
Variable Publish : PS -> Context -> list Message -> PS * option goerr.
Variable map_iter : list (string * list Message) -> list (string * list Message).
Variable cfg : Config.
Variable ctx : Context.
Hypothesis map_iter_perm : forall g, Permutation (map_iter g) g.

Let pid := ProcessorID_cfg cfg.

(** A drain over the fake store, with any publisher and whatever its
    outcome, only removes entries owned by the processor and only publishes
    the messages of entries owned by the processor. *)
Lemma drain_fake_safe (st : EntryStorage) (p0 : PS) ms cs st' p0' r0 :
  drain fake_storage Publish map_iter cfg ctx st p0 ms cs st' p0' r0 ->
  NoDup (map ID (fs_entries st)) ->
  fs_now st' = fs_now st /\ subseq (fs_entries st') (fs_entries st) /\
  filter (fun e => negb (owned_by pid e)) (fs_entries st') =
    filter (fun e => negb (owned_by pid e)) (fs_entries st) /\
  (forall ns msgs m, In (ns, msgs) cs -> In m msgs ->
     exists e, In e (fs_entries st) /\ owned_by pid e = true /\ Namespace e = ns /\
               entry_message e = m).
Proof.
  assert (Hstep : forall L, NoDup (map ID L) ->
    let F := get_claimed_loop pid (BatchSize cfg) [] L in
    (forall D, subseq D (map ID F) ->
       subseq (filter (fun e => negb (id_listed D e)) L) L /\
       filter (fun e => negb (owned_by pid e)) (filter (fun e => negb (id_listed D e)) L) =
       filter (fun e => negb (owned_by pid e)) L) /\
    (forall calls rest ns msgs m, calls ++ rest = map_iter (namespaced F) ->
       In (ns, msgs) calls -> In m msgs ->
       exists e, In e L /\ owned_by pid e = true /\ Namespace e = ns /\ entry_message e = m)).
  { intros L Hnd F.
    destruct (get_claimed_loop_spec pid (BatchSize cfg) [] L) as [R [HR [HsR HoR]]].
    simpl in HR. fold F in HR. rewrite <- HR in HsR, HoR. split.
    - intros D HD. split; [apply filter_subseq|].
      rewrite filter_comm. apply filter_all. intros x Hx.
      apply filter_In in Hx. destruct Hx as [HxL Hxo].
      destruct (id_listed D x) eqn:Hl; [|reflexivity]. exfalso.
      apply id_listed_In in Hl. apply (subseq_In _ _ _ HD) in Hl.
      apply in_map_iff in Hl. destruct Hl as [y [Hy HyF]].
      assert (HyL : In y L) by exact (subseq_In _ _ _ HsR HyF).
      rewrite (NoDup_map_same ID L y x Hnd HyL HxL Hy) in HyF.
      rewrite Forall_forall in HoR. pose proof (HoR x HyF) as Ho.
      unfold owned_by in Hxo. rewrite Ho, String.eqb_refl in Hxo. discriminate.
    - intros calls rest ns msgs m Hc Hin Hm.
      assert (Hg : In (ns, msgs) (namespaced F)).
      { apply (Permutation_in _ (map_iter_perm (namespaced F))). rewrite <- Hc.
        apply in_or_app. left. exact Hin. }
      rewrite namespaced_groups in Hg.
      destruct (ns_groups_In F ns msgs m Hg Hm) as [e [HeF [Hns Hem]]].
      exists e. split; [exact (subseq_In _ _ _ HsR HeF)|].
      rewrite Forall_forall in HoR. split; [|split; assumption].
      unfold owned_by. rewrite (HoR e HeF). apply String.eqb_refl. }
  intros Hd. induction Hd as [s p s1 p1 calls more e Hb|s p s1 p1 calls Hb|s p s1 p1 calls Hb
                  |s p s1 p1 calls mores calls' s2 p2 r Hb Hd IH]; intros Hnd;
    destruct s as [now L]; simpl in Hnd |- *;
    pose proof (fake_processBatch_shape Publish map_iter cfg ctx now L p) as Hsh;
    cbv zeta in Hsh; rewrite Hb in Hsh; destruct (Hstep L Hnd) as [Hdel Hpub].
  - destruct Hsh as [[D [HD ->]] [rest Hrest]]. destruct (Hdel D HD) as [Hs Hf].
    split; [reflexivity|]. split; [exact Hs|]. split; [exact Hf|].
    intros ns msgs m Hin Hm. exact (Hpub calls rest ns msgs m Hrest Hin Hm).
  - destruct Hsh as [[D [HD ->]] [rest Hrest]]. destruct (Hdel D HD) as [Hs Hf].
    split; [reflexivity|]. split; [exact Hs|]. split; [exact Hf|].
    intros ns msgs m Hin Hm. exact (Hpub calls rest ns msgs m Hrest Hin Hm).
  - destruct Hsh as [[D [HD ->]] [rest Hrest]]. destruct (Hdel D HD) as [Hs Hf].
    split; [reflexivity|]. split; [exact Hs|]. split; [exact Hf|].
    intros ns msgs m Hin Hm. exact (Hpub calls rest ns msgs m Hrest Hin Hm).
  - destruct Hsh as [[D [HD ->]] [rest Hrest]]. destruct (Hdel D HD) as [Hs Hf].
    assert (Hnd1 : NoDup (map ID (filter (fun e => negb (id_listed D e)) L)))
      by (eapply subseq_NoDup; [apply subseq_map, Hs|exact Hnd]).
    destruct (IH Hnd1) as (Hn2 & Hs2 & Hf2 & Hp2). simpl in Hn2, Hs2, Hf2, Hp2.
    split; [exact Hn2|]. split; [exact (subseq_trans _ _ _ Hs2 Hs)|].
    split; [rewrite Hf2; exact Hf|].
    intros ns msgs m Hin Hm. apply in_app_or in Hin. destruct Hin as [Hin|Hin].
    + exact (Hpub calls rest ns msgs m Hrest Hin Hm).
    + destruct (Hp2 ns msgs m Hin Hm) as [e [HeL He]]. exists e.
      split; [exact (subseq_In _ _ _ Hs HeL)|exact He].
Qed.

End FakeSafety.

(** The entries of the fake store after the claim of a pass. *)
Lemma fake_PumpOutbox_drain {PS : Type}
    (Publish : PS -> Context -> list Message -> PS * option goerr)
    (map_iter : list (string * list Message) -> list (string * list Message))
    (cfg : Config) (ctx : Context) (now : Z) (st : EntryStorage) (p : PS) mores calls st' p' r :
  PumpOutbox fake_storage Publish map_iter cfg ctx now st p mores calls st' p' r ->
  drain fake_storage Publish map_iter cfg ctx
    (fst (fake_ClaimEntries st (ProcessorID_cfg cfg) (now + ClaimDuration cfg))) p
    mores calls st' p' r.
Proof.
  intros H. inversion H as [s p0 s1 e Hc|s p0 s1 m c s2 p2 r2 Hc Hd]; subst.
  - discriminate.
  - cbn [ClaimEntries fake_storage] in Hc. rewrite Hc. exact Hd.
Qed.

(** A pass over the fake store, with any publisher and whatever its outcome
    (success, error or panic) and on any context, never deletes an entry that after its claim
    belongs to another processor (or to none), for instance one under a
    live lease of another processor: the store ends as a subsequence of the
    claimed store with the same entries not owned by this processor. *)
Theorem PumpOutbox_fake_keeps_unowned {PS : Type}
    (Publish : PS -> Context -> list Message -> PS * option goerr)
    (map_iter : list (string * list Message) -> list (string * list Message))
    (cfg : Config) (ctx : Context) (now : Z) (st : EntryStorage) (p : PS) mores calls st' p' r :
  (forall g, Permutation (map_iter g) g) -> NoDup (map ID (fs_entries st)) ->
  PumpOutbox fake_storage Publish map_iter cfg ctx now st p mores calls st' p' r ->
  let claimed := fs_entries (fst (fake_ClaimEntries st (ProcessorID_cfg cfg)
                                    (now + ClaimDuration cfg))) in
  subseq (fs_entries st') claimed /\
  filter (fun e => negb (owned_by (ProcessorID_cfg cfg) e)) (fs_entries st') =
  filter (fun e => negb (owned_by (ProcessorID_cfg cfg) e)) claimed.
Proof.
  intros Hperm Hnd Hrun claimed.
  pose proof (fake_PumpOutbox_drain Publish map_iter cfg ctx now st p _ _ _ _ _ Hrun) as Hd.
  assert (Hnd' : NoDup (map ID (fs_entries (fst (fake_ClaimEntries st (ProcessorID_cfg cfg)
                                                 (now + ClaimDuration cfg))))))
    by (rewrite fake_ClaimEntries_ids; exact Hnd).
  destruct (drain_fake_safe Publish map_iter cfg ctx Hperm _ _ _ _ _ _ _ Hd Hnd')
    as (_ & Hs & Hf & _).
  split; [exact Hs|exact Hf].
Qed.

(** A pass over the fake store, with any publisher and on any context,
    only publishes
    messages of entries that after its claim belong to this processor, each
    under that entry's namespace. *)
Theorem PumpOutbox_fake_publishes_owned {PS : Type}
    (Publish : PS -> Context -> list Message -> PS * option goerr)
    (map_iter : list (string * list Message) -> list (string * list Message))
    (cfg : Config) (ctx : Context) (now : Z) (st : EntryStorage) (p : PS) mores calls st' p' r :
  (forall g, Permutation (map_iter g) g) -> NoDup (map ID (fs_entries st)) ->
  PumpOutbox fake_storage Publish map_iter cfg ctx now st p mores calls st' p' r ->
  let claimed := fs_entries (fst (fake_ClaimEntries st (ProcessorID_cfg cfg)
                                    (now + ClaimDuration cfg))) in
  forall ns msgs m, In (ns, msgs) calls -> In m msgs ->
    exists e, In e claimed /\ ProcessorID e = ProcessorID_cfg cfg /\ Namespace e = ns /\
              entry_message e = m.
Proof.
  intros Hperm Hnd Hrun claimed ns msgs m Hin Hm.
  pose proof (fake_PumpOutbox_drain Publish map_iter cfg ctx now st p _ _ _ _ _ Hrun) as Hd.
  assert (Hnd' : NoDup (map ID (fs_entries (fst (fake_ClaimEntries st (ProcessorID_cfg cfg)
                                                 (now + ClaimDuration cfg))))))
    by (rewrite fake_ClaimEntries_ids; exact Hnd).
  destruct (drain_fake_safe Publish map_iter cfg ctx Hperm _ _ _ _ _ _ _ Hd Hnd')
    as (_ & _ & _ & Hp).
  destruct (Hp ns msgs m Hin Hm) as (e & He & Ho & Hns & Hem).
  exists e. split; [exact He|]. split; [apply String.eqb_eq; exact Ho|].
  split; assumption.
Qed.

Lemma PumpOutbox_fake_keeps_unowned_witness :
  (forall g, Permutation (insertion_order g) g) /\
  NoDup (map ID (fs_entries leased_and_free)) /\
  exists mores calls st' p' r,
    PumpOutbox fake_storage publish_broker_down insertion_order cfg_run background 0 leased_and_free tt
      mores calls st' p' r /\
    r = PassPanic /\
    filter (fun e => negb (owned_by "p1" e)) (fs_entries st') =
    filter (fun e => negb (owned_by "p1" e))
      (fs_entries (fst (fake_ClaimEntries leased_and_free "p1" (0 + ClaimDuration cfg_run)))).
Proof.
  assert (Hperm : forall g, Permutation (insertion_order g) g)
    by (intros g; apply Permutation_refl).
  assert (Hnd : NoDup (map ID (fs_entries leased_and_free)))
    by (repeat constructor; simpl; intuition discriminate).
  split; [exact Hperm|]. split; [exact Hnd|].
  assert (Hrun : PumpOutbox fake_storage publish_broker_down insertion_order cfg_run background 0
    leased_and_free tt [] [] (store_with [mkEntry "x" 0 [] [] "" "p2" (Some 100)]) tt PassPanic).
  { eapply pump_claimed; [reflexivity|]. apply drain_panic. vm_compute. reflexivity. }
  do 5 eexists. split; [exact Hrun|]. split; [reflexivity|].
  exact (proj2 (PumpOutbox_fake_keeps_unowned publish_broker_down insertion_order cfg_run background 0
                  leased_and_free tt _ _ _ _ _ Hperm Hnd Hrun)).
Defined.

Lemma PumpOutbox_fake_publishes_owned_witness :
  (forall g, Permutation (insertion_order g) g) /\
  NoDup (map ID (fs_entries leased_and_free)) /\
  PumpOutbox fake_storage publish_record insertion_order cfg_run settings_ctx 0 leased_and_free []
    [false] [(""%string, [entry_message test_entry])]
    (store_with [mkEntry "x" 0 [] [] "" "p2" (Some 100)]) [entry_message test_entry] PassOk /\
  exists e, In e (fs_entries (fst (fake_ClaimEntries leased_and_free "p1"
                                     (0 + ClaimDuration cfg_run)))) /\
            ProcessorID e = "p1"%string /\ entry_message e = entry_message test_entry.
Proof.
  assert (Hperm : forall g, Permutation (insertion_order g) g)
    by (intros g; apply Permutation_refl).
  assert (Hnd : NoDup (map ID (fs_entries leased_and_free)))
    by (repeat constructor; simpl; intuition discriminate).
  assert (Hrun : PumpOutbox fake_storage publish_record insertion_order cfg_run settings_ctx 0 leased_and_free []
    [false] [(""%string, [entry_message test_entry])]
    (store_with [mkEntry "x" 0 [] [] "" "p2" (Some 100)]) [entry_message test_entry] PassOk).
  { eapply pump_claimed; [reflexivity|]. apply drain_done. vm_compute. reflexivity. }
  split; [exact Hperm|]. split; [exact Hnd|]. split; [exact Hrun|].
  destruct (PumpOutbox_fake_publishes_owned publish_record insertion_order cfg_run settings_ctx 0
              leased_and_free [] _ _ _ _ _ Hperm Hnd Hrun ""%string [entry_message test_entry]
              (entry_message test_entry) (or_introl eq_refl) (or_introl eq_refl))
    as (e & He & Ho & _ & Hm).
  exists e. split; [exact He|]. split; [exact Ho|exact Hm].
Defined.

(** ** Passes that publish nothing, or everything *)

(** A pass by a processor while every stored entry is under a live lease
    of some other processor: whatever the publisher and on any context, the pass succeeds after
    a single batch with [more = false], publishes nothing and leaves the
    store and the publisher as they were. *)
Theorem PumpOutbox_fake_foreign_leases {PS : Type}
    (Publish : PS -> Context -> list Message -> PS * option goerr)
    (map_iter : list (string * list Message) -> list (string * list Message))
    (cfg : Config) (ctx : Context) (now : Z) (st : EntryStorage) (p : PS) :
  (forall g, Permutation (map_iter g) g) -> 1 <= BatchSize cfg ->
  (forall e, In e (fs_entries st) ->
     ProcessorID e <> ""%string /\ ProcessorID e <> ProcessorID_cfg cfg /\
     exists d, ProcessingDeadline e = Some d /\ fs_now st < d) ->
  PumpOutbox fake_storage Publish map_iter cfg ctx now st p [false] [] st p PassOk /\
  (forall mores calls st' p' r,
     PumpOutbox fake_storage Publish map_iter cfg ctx now st p mores calls st' p' r ->
     mores = [false] /\ calls = [] /\ st' = st /\ p' = p /\ r = PassOk).
Proof.
  intros Hiter HB Hlease.
  assert (Hc : fake_ClaimEntries st (ProcessorID_cfg cfg) (now + ClaimDuration cfg) = (st, None)).
  { unfold fake_ClaimEntries. destruct st as [t L]. simpl in *. f_equal. f_equal.
    rewrite <- (map_id L) at 2. apply map_ext_in. intros x Hx.
    destruct (Hlease x Hx) as (Hne & _ & d & Hd & Hlt). unfold claim_entry.
    rewrite Hd. destruct (String.eqb_spec (ProcessorID x) "") as [E|_]; [contradiction|].
    simpl. destruct (Z.ltb_spec t d); [reflexivity|lia]. }
  assert (Hnone : filter (owned_by (ProcessorID_cfg cfg)) (fs_entries st) = []).
  { apply filter_none. intros x Hx. destruct (Hlease x Hx) as (_ & Hne & _).
    unfold owned_by. apply String.eqb_neq. exact Hne. }
  assert (Hb : processBatch fake_storage Publish map_iter cfg ctx st p =
               BatchReturned st p [] false None).
  { destruct st as [t L]. exact (fake_processBatch_none_owned Publish map_iter cfg ctx t L p
                                   Hiter HB Hnone). }
  assert (Hrun : PumpOutbox fake_storage Publish map_iter cfg ctx now st p [false] [] st p PassOk)
    by (eapply pump_claimed; [exact Hc|apply drain_done; exact Hb]).
  split; [exact Hrun|].
  intros mores calls st' p' r H.
  destruct (PumpOutbox_det _ _ _ _ _ _ _ _ _ _ _ _ _ _ _ _ _ _ Hrun H)
    as (<- & <- & <- & <- & <-). repeat split; reflexivity.
Qed.

Lemma PumpOutbox_fake_foreign_leases_witness :
  let st := store_with [mkEntry "x" 0 [] [] "" "p2" (Some 100)] in
  (forall g, Permutation (insertion_order g) g) /\ 1 <= BatchSize cfg_run /\
  (forall e, In e (fs_entries st) ->
     ProcessorID e <> ""%string /\ ProcessorID e <> ProcessorID_cfg cfg_run /\
     exists d, ProcessingDeadline e = Some d /\ fs_now st < d) /\
  PumpOutbox fake_storage publish_broker_down insertion_order cfg_run background 0 st tt [false] [] st tt PassOk.
Proof.
  intros st.
  assert (Hperm : forall g, Permutation (insertion_order g) g)
    by (intros g; apply Permutation_refl).
  assert (HB : 1 <= BatchSize cfg_run) by (simpl; lia).
  assert (Hl : forall e, In e (fs_entries st) ->
     ProcessorID e <> ""%string /\ ProcessorID e <> ProcessorID_cfg cfg_run /\
     exists d, ProcessingDeadline e = Some d /\ fs_now st < d).
  { intros e [<-|[]]. split; [discriminate|]. split; [discriminate|].
    exists 100. split; [reflexivity|simpl; lia]. }
  split; [exact Hperm|]. split; [exact HB|]. split; [exact Hl|].
  exact (proj1 (PumpOutbox_fake_foreign_leases publish_broker_down insertion_order cfg_run background 0 st tt
                  Hperm HB Hl)).
Defined.

Lemma namespaced_same_ns (k0 : string) (F : list Entry) :
  Forall (fun e => Namespace e = k0) F ->
  namespaced F = match F with [] => [] | _ => [(k0, map entry_message F)] end.
Proof.
  intros HF. destruct F as [|x r]; [reflexivity|].
  rewrite namespaced_groups. unfold ns_groups.
  destruct (dedup_first_spec (map Namespace (x :: r))) as [Hnd Hin].
  rewrite Forall_forall in HF.
  rewrite (NoDup_only _ k0 Hnd).
  - cbn [map]. rewrite filter_all; [reflexivity|]. intros e He.
    rewrite (HF e He). apply String.eqb_refl.
  - intros y. rewrite Hin. split.
    + intros Hy. apply in_map_iff in Hy. destruct Hy as [e [<- He]]. exact (HF e He).
    + intros ->. apply in_map_iff. exists x. split; [apply HF; left; reflexivity|].
      left. reflexivity.
Qed.

Lemma publish_record_same_ns
    (map_iter : list (string * list Message) -> list (string * list Message))
    (ctx : Context) (k0 : string) (F : list Entry) (p : list Message) :
  (forall g, Permutation (map_iter g) g) -> settingsFromContext ctx <> Panics ->
  Forall (fun e => Namespace e = k0) F ->
  fst (fst (publish_loop publish_record ctx p (map_iter (namespaced F)))) = p ++ map entry_message F.
Proof.
  intros Hiter Hc HF. rewrite (namespaced_same_ns k0 F HF). destruct F as [|x r].
  - rewrite (Permutation_nil (Permutation_sym (Hiter []))). simpl. rewrite app_nil_r. reflexivity.
  - rewrite (Permutation_length_1_inv (Permutation_sym (Hiter _))). simpl.
    destruct (WithNamespace_Returns ctx k0 Hc) as [c ->]. reflexivity.
Qed.

(** Deleting the first [b] entries of a store whose entries all belong to
    the processor leaves the rest, in order. *)
Lemma delete_first_all_owned (pid : string) (b : nat) (L : list Entry) :
  NoDup (map ID L) -> Forall (fun e => ProcessorID e = pid) L ->
  filter (fun e => negb (id_listed (map ID (firstn b L)) e)) L = skipn b L.
Proof.
  intros Hnd HL.
  assert (Hall : filter (owned_by pid) L = L).
  { apply filter_all. intros x Hx. rewrite Forall_forall in HL.
    unfold owned_by. rewrite (HL x Hx). apply String.eqb_refl. }
  pose proof (delete_first_owned pid b L Hnd) as Hdel. cbv zeta in Hdel. rewrite Hall in Hdel.
  rewrite <- Hdel. symmetry. apply filter_all. intros x Hx.
  apply filter_In in Hx. destruct Hx as [Hx _].
  rewrite Forall_forall in HL. unfold owned_by. rewrite (HL x Hx). apply String.eqb_refl.
Qed.

(** Draining a fake store whose entries all belong to the processor and
    share one namespace, with the recording publisher, on a context that
    carries settings: the publisher receives every message in store order
    and the store ends empty. *)
Lemma drain_record_same_ns
    (map_iter : list (string * list Message) -> list (string * list Message))
    (cfg : Config) (ctx : Context) (now : Z) (k0 : string) :
  (forall g, Permutation (map_iter g) g) -> 1 <= BatchSize cfg ->
  settingsFromContext ctx <> Panics ->
  forall n L p, length L = n -> NoDup (map ID L) ->
  Forall (fun e => ProcessorID e = ProcessorID_cfg cfg /\ Namespace e = k0) L ->
  exists mores calls,
    drain fake_storage publish_record map_iter cfg ctx (mkEntryStorage now L) p mores calls
      (mkEntryStorage now []) (p ++ map entry_message L) PassOk.
Proof.
  intros Hiter HB Hc n. induction n as [n IH] using lt_wf_ind. intros L p Hn Hnd HL.
  set (pid := ProcessorID_cfg cfg) in *.
  set (b := Z.to_nat (BatchSize cfg)).
  assert (Hb : (1 <= b)%nat) by (unfold b; lia).
  assert (Hok : forall (q : list Message) c msgs, snd (publish_record q c msgs) = None)
    by reflexivity.
  pose proof (fake_processBatch_ok publish_record map_iter cfg ctx now L p Hc Hok HB) as Hpb.
  cbv zeta in Hpb. fold pid b in Hpb.
  assert (HLo : Forall (fun e => ProcessorID e = pid) L)
    by (rewrite Forall_forall in HL |- *; intros x Hx; exact (proj1 (HL x Hx))).
  assert (Hall : filter (owned_by pid) L = L).
  { apply filter_all. intros x Hx. rewrite Forall_forall in HLo.
    unfold owned_by. rewrite (HLo x Hx). apply String.eqb_refl. }
  rewrite Hall in Hpb.
  rewrite (delete_first_all_owned pid b L Hnd HLo) in Hpb.
  assert (HFns : Forall (fun e => Namespace e = k0) (firstn b L)).
  { rewrite Forall_forall in HL |- *. intros x Hx. apply (HL x).
    exact (subseq_In _ _ _ (firstn_subseq b L) Hx). }
  rewrite (publish_record_same_ns map_iter ctx k0 (firstn b L) p Hiter Hc HFns) in Hpb.
  destruct (Nat.leb_spec b (length L)) as [Hge|Hlt].
  - assert (Hnd1 : NoDup (map ID (skipn b L))).
    { rewrite <- (delete_first_all_owned pid b L Hnd HLo).
      eapply subseq_NoDup; [apply subseq_map, filter_subseq|exact Hnd]. }
    assert (HL1' : Forall (fun e => ProcessorID e = pid /\ Namespace e = k0) (skipn b L)).
    { rewrite Forall_forall in HL |- *. intros x Hx. apply HL.
      rewrite <- (firstn_skipn b L). apply in_or_app. right. exact Hx. }
    destruct (IH (length (skipn b L)) ltac:(rewrite length_skipn; lia) (skipn b L)
                (p ++ map entry_message (firstn b L)) eq_refl Hnd1 HL1')
      as (mores & calls & Hd).
    rewrite <- app_assoc, <- map_app, firstn_skipn in Hd.
    eexists. eexists. eapply drain_more; [exact Hpb|exact Hd].
  - rewrite skipn_all2 in Hpb by lia. rewrite firstn_all2 in Hpb by lia.
    eexists. eexists. apply drain_done. exact Hpb.
Qed.

(** Messages written through the fake store's [Publish] into an empty
    store (with distinct UUIDs), then a pass with a recording publisher
    that never fails.  On a context that carries settings, the pass
    succeeds and delivers every message, in the order they were written,
    and the store ends empty; every pass does exactly that.  On a context
    that carries none (such as [context.Background()]), if there is at
    least one message, every pass panics: the publisher receives nothing,
    and the first [BatchSize] entries have been deleted, so only the
    messages after the first [BatchSize] are left in the store. *)
Theorem fake_Publish_then_PumpOutbox (uuid : nat -> string) (clock : nat -> Z) (k : nat)
    (map_iter : list (string * list Message) -> list (string * list Message))
    (cfg : Config) (ctx : Context) (now : Z) (e : EntryStorage) (msgs p : list Message) :
  (forall g, Permutation (map_iter g) g) -> 1 <= BatchSize cfg ->
  fs_entries e = [] -> NoDup (map uuid (seq k (length msgs))) ->
  let e1 := fst (fst (fake_Publish uuid clock k e msgs)) in
  (settingsFromContext ctx <> Panics ->
     (exists mores calls st',
        PumpOutbox fake_storage publish_record map_iter cfg ctx now e1 p mores calls st'
          (p ++ msgs) PassOk) /\
     (forall mores calls st' p' r,
        PumpOutbox fake_storage publish_record map_iter cfg ctx now e1 p mores calls st' p' r ->
        r = PassOk /\ p' = p ++ msgs /\ fs_entries st' = [])) /\
  (settingsFromContext ctx = Panics -> msgs <> [] ->
     (exists st', PumpOutbox fake_storage publish_record map_iter cfg ctx now e1 p [] [] st' p PassPanic) /\
     (forall mores calls st' p' r,
        PumpOutbox fake_storage publish_record map_iter cfg ctx now e1 p mores calls st' p' r ->
        r = PassPanic /\ calls = [] /\ p' = p /\
        map entry_message (fs_entries st') = skipn (Z.to_nat (BatchSize cfg)) msgs)).
Proof.
  intros Hiter HB He Hnd e1.
  set (pid := ProcessorID_cfg cfg).
  set (A := publish_entries uuid clock k msgs).
  destruct (publish_entries_spec uuid clock k msgs) as (HAl & HAm & HAid & _ & HAf).
  fold A in HAl, HAm, HAid, HAf.
  set (A' := map (claim_entry (fs_now e) pid (now + ClaimDuration cfg)) A).
  assert (Hc : fake_ClaimEntries e1 pid (now + ClaimDuration cfg) =
               (mkEntryStorage (fs_now e) A', None))
    by (unfold e1, fake_Publish, fake_ClaimEntries; simpl; rewrite He; reflexivity).
  assert (Hclaim : forall x, In x A -> claim_entry (fs_now e) pid (now + ClaimDuration cfg) x =
           mkEntry (ID x) (CreatedAt x) (Key x) (Payload x) (Namespace x) pid
             (Some (now + ClaimDuration cfg))).
  { intros x Hx. rewrite Forall_forall in HAf. destruct (HAf x Hx) as (Hp & _).
    unfold claim_entry. rewrite Hp. reflexivity. }
  assert (HA'm : map entry_message A' = msgs).
  { rewrite <- HAm. unfold A'. rewrite map_map. apply map_ext_in. intros x Hx.
    rewrite (Hclaim x Hx). reflexivity. }
  assert (HA'nd : NoDup (map ID A')).
  { unfold A'. rewrite map_map. rewrite (map_ext_in _ ID A).
    - rewrite HAid. exact Hnd.
    - intros x Hx. rewrite (Hclaim x Hx). reflexivity. }
  assert (HA'f : Forall (fun x => ProcessorID x = pid /\ Namespace x = ""%string) A').
  { unfold A'. rewrite Forall_forall in HAf |- *. intros y Hy.
    apply in_map_iff in Hy. destruct Hy as [x [<- Hx]]. rewrite (Hclaim x Hx).
    destruct (HAf x Hx) as (_ & _ & Hns). split; [reflexivity|exact Hns]. }
  split.
  - intros Hctx.
    destruct (drain_record_same_ns map_iter cfg ctx (fs_now e) ""%string Hiter HB Hctx
                (length A') A' p eq_refl HA'nd HA'f) as (mores & calls & Hd).
    rewrite HA'm in Hd.
    assert (Hrun : PumpOutbox fake_storage publish_record map_iter cfg ctx now e1 p mores calls
                     (mkEntryStorage (fs_now e) []) (p ++ msgs) PassOk)
      by (eapply pump_claimed; [exact Hc|exact Hd]).
    split; [exists mores, calls, (mkEntryStorage (fs_now e) []); exact Hrun|].
    intros mores2 calls2 st2 p2 r2 H2.
    destruct (PumpOutbox_det _ _ _ _ _ _ _ _ _ _ _ _ _ _ _ _ _ _ Hrun H2)
      as (_ & _ & <- & <- & <-).
    repeat split; reflexivity.
  - intros Hctx Hne.
    assert (HA'o : Forall (fun x => ProcessorID x = pid) A')
      by (rewrite Forall_forall in HA'f |- *; intros x Hx; exact (proj1 (HA'f x Hx))).
    assert (Hall : filter (owned_by pid) A' = A').
    { apply filter_all. intros x Hx. rewrite Forall_forall in HA'o.
      unfold owned_by. rewrite (HA'o x Hx). apply String.eqb_refl. }
    set (b := Z.to_nat (BatchSize cfg)).
    assert (HF : firstn b (filter (owned_by pid) A') <> []).
    { rewrite Hall. intros H. apply (f_equal (@length Entry)) in H.
      rewrite length_firstn in H.
      assert (HlA : length A' = length msgs)
        by (rewrite <- HA'm, length_map; reflexivity).
      assert (Hb : (1 <= b)%nat) by (unfold b; lia).
      destruct msgs as [|m ms]; [contradiction|]. cbn [List.length] in HlA, H. lia. }
    pose proof (fake_processBatch_panic publish_record map_iter cfg ctx (fs_now e) A' p
                  Hctx Hiter HB HF) as Hpb.
    cbv zeta in Hpb. fold pid b in Hpb. rewrite Hall in Hpb.
    rewrite (delete_first_all_owned pid b A' HA'nd HA'o) in Hpb.
    assert (Hrun : PumpOutbox fake_storage publish_record map_iter cfg ctx now e1 p [] []
                     (mkEntryStorage (fs_now e) (skipn b A')) p PassPanic)
      by (eapply pump_claimed; [exact Hc|apply drain_panic; exact Hpb]).
    split; [eexists; exact Hrun|].
    intros mores2 calls2 st2 p2 r2 H2.
    destruct (PumpOutbox_det _ _ _ _ _ _ _ _ _ _ _ _ _ _ _ _ _ _ Hrun H2)
      as (_ & <- & <- & <- & <-).
    split; [reflexivity|]. split; [reflexivity|]. split; [reflexivity|].
    simpl. rewrite <- skipn_map, HA'm. reflexivity.
Qed.

Lemma fake_Publish_then_PumpOutbox_witness :
  let clock := fun i : nat => Z.of_nat i in
  (forall g, Permutation (insertion_order g) g) /\ 1 <= BatchSize cfg_b1 /\
  fs_entries (store_with []) = [] /\ NoDup (map uuid_sample (seq 0 (length three_messages))) /\
  settingsFromContext settings_ctx <> Panics /\
  (exists mores calls st',
     PumpOutbox fake_storage publish_record insertion_order cfg_b1 settings_ctx 0
       (fst (fst (fake_Publish uuid_sample clock 0 (store_with []) three_messages))) []
       mores calls st' ([] ++ three_messages) PassOk) /\
  settingsFromContext background = Panics /\
  (exists st',
     PumpOutbox fake_storage publish_record insertion_order cfg_b1 background 0
       (fst (fst (fake_Publish uuid_sample clock 0 (store_with []) three_messages))) []
       [] [] st' [] PassPanic).
Proof.
  intros clock.
  assert (Hperm : forall g, Permutation (insertion_order g) g)
    by (intros g; apply Permutation_refl).
  assert (HB : 1 <= BatchSize cfg_b1) by (simpl; lia).
  assert (Hnd : NoDup (map uuid_sample (seq 0 (length three_messages))))
    by (repeat constructor; simpl; intuition discriminate).
  assert (Hc : settingsFromContext settings_ctx <> Panics) by discriminate.
  destruct (fake_Publish_then_PumpOutbox uuid_sample clock 0 insertion_order cfg_b1 settings_ctx 0
              (store_with []) three_messages [] Hperm HB eq_refl Hnd) as [H1 _].
  destruct (fake_Publish_then_PumpOutbox uuid_sample clock 0 insertion_order cfg_b1 background 0
              (store_with []) three_messages [] Hperm HB eq_refl Hnd) as [_ H2].
  split; [exact Hperm|]. split; [exact HB|]. split; [reflexivity|]. split; [exact Hnd|].
  split; [exact Hc|]. split; [exact (proj1 (H1 Hc))|].
  split; [reflexivity|]. exact (proj1 (H2 eq_refl ltac:(discriminate))).
Defined.

(** With a publisher that never fails, a pass over the fake store (unique
    IDs, [BatchSize >= 1]), [C] being the number of entries the processor
    owns after its claim.  On a context that carries settings, the pass
    succeeds, and every pass leaves in the store exactly the entries that
    after the claim belong to other processors (or to none), in their
    order: every entry this processor owned is deleted.  On a context that
    carries none, with [C >= 1], every pass panics after deleting the first
    [BatchSize] entries the processor owns, and only those. *)
Theorem PumpOutbox_fake_ok_store {PS : Type}
    (Publish : PS -> Context -> list Message -> PS * option goerr)
    (map_iter : list (string * list Message) -> list (string * list Message))
    (cfg : Config) (ctx : Context) (now : Z) (st : EntryStorage) (p : PS) :
  (forall p c msgs, snd (Publish p c msgs) = None) ->
  (forall g, Permutation (map_iter g) g) -> 1 <= BatchSize cfg ->
  NoDup (map ID (fs_entries st)) ->
  let claimed := fs_entries (fst (fake_ClaimEntries st (ProcessorID_cfg cfg)
                                    (now + ClaimDuration cfg))) in
  let owned := filter (owned_by (ProcessorID_cfg cfg)) claimed in
  (settingsFromContext ctx <> Panics ->
     (exists mores calls st' p',
        PumpOutbox fake_storage Publish map_iter cfg ctx now st p mores calls st' p' PassOk) /\
     (forall mores calls st' p' r,
        PumpOutbox fake_storage Publish map_iter cfg ctx now st p mores calls st' p' r ->
        r = PassOk /\
        fs_entries st' = filter (fun e => negb (owned_by (ProcessorID_cfg cfg) e)) claimed)) /\
  (settingsFromContext ctx = Panics -> owned <> [] ->
     let F := firstn (Z.to_nat (BatchSize cfg)) owned in
     (exists mores calls st' p',
        PumpOutbox fake_storage Publish map_iter cfg ctx now st p mores calls st' p' PassPanic) /\
     (forall mores calls st' p' r,
        PumpOutbox fake_storage Publish map_iter cfg ctx now st p mores calls st' p' r ->
        r = PassPanic /\ calls = [] /\
        fs_entries st' = filter (fun e => negb (id_listed (map ID F) e)) claimed)).
Proof.
  intros Hok Hperm HB Hnd claimed owned.
  assert (Hnd' : NoDup (map ID claimed))
    by (unfold claimed; rewrite fake_ClaimEntries_ids; exact Hnd).
  split.
  - intros Hc.
    destruct (drain_fake Publish map_iter cfg ctx Hc Hok HB (fs_now st) _ claimed p eq_refl Hnd')
      as (mores & calls & L' & p' & Hd & _ & _ & _ & Hown & _).
    assert (Hrun : PumpOutbox fake_storage Publish map_iter cfg ctx now st p mores calls
                     (mkEntryStorage (fs_now st) L') p' PassOk)
      by (eapply pump_claimed; [reflexivity|exact Hd]).
    split; [exists mores, calls, (mkEntryStorage (fs_now st) L'), p'; exact Hrun|].
    intros mores2 calls2 st2 p2 r2 H2.
    destruct (PumpOutbox_det _ _ _ _ _ _ _ _ _ _ _ _ _ _ _ _ _ _ Hrun H2)
      as (_ & _ & <- & _ & <-).
    split; [reflexivity|]. simpl.
    destruct (drain_fake_safe Publish map_iter cfg ctx Hperm _ _ _ _ _ _ _ Hd Hnd')
      as (_ & _ & Hf & _).
    simpl in Hf. rewrite <- Hf. symmetry. apply filter_all. intros x Hx.
    destruct (owned_by (ProcessorID_cfg cfg) x) eqn:Ho; [|reflexivity]. exfalso.
    assert (Hin : In x (filter (owned_by (ProcessorID_cfg cfg)) L'))
      by (apply filter_In; split; assumption).
    rewrite Hown in Hin. exact Hin.
  - intros Hc Hne F.
    assert (HF : F <> []).
    { unfold F. intros H. apply (f_equal (@length Entry)) in H. rewrite length_firstn in H.
      destruct owned as [|x r]; [contradiction|]. simpl in H. lia. }
    assert (Hrun : PumpOutbox fake_storage Publish map_iter cfg ctx now st p [] []
                     (mkEntryStorage (fs_now st)
                        (filter (fun e => negb (id_listed (map ID F) e)) claimed)) p PassPanic).
    { eapply pump_claimed; [reflexivity|]. apply drain_panic.
      exact (fake_processBatch_panic Publish map_iter cfg ctx (fs_now st) claimed p
               Hc Hperm HB HF). }
    split; [do 4 eexists; exact Hrun|].
    intros mores2 calls2 st2 p2 r2 H2.
    destruct (PumpOutbox_det _ _ _ _ _ _ _ _ _ _ _ _ _ _ _ _ _ _ Hrun H2)
      as (_ & <- & <- & _ & <-).
    repeat split; reflexivity.
Qed.

Lemma PumpOutbox_fake_ok_store_witness :
  (forall (p : list Message) c msgs, snd (publish_record p c msgs) = None) /\
  (forall g, Permutation (insertion_order g) g) /\ 1 <= BatchSize cfg_run /\
  NoDup (map ID (fs_entries leased_and_free)) /\
  settingsFromContext settings_ctx <> Panics /\
  (exists mores calls st' p',
     PumpOutbox fake_storage publish_record insertion_order cfg_run settings_ctx 0 leased_and_free []
       mores calls st' p' PassOk) /\
  settingsFromContext background = Panics /\
  (exists mores calls st' p',
     PumpOutbox fake_storage publish_record insertion_order cfg_run background 0 leased_and_free []
       mores calls st' p' PassPanic).
Proof.
  assert (Hok : forall (p : list Message) c msgs, snd (publish_record p c msgs) = None)
    by reflexivity.
  assert (Hperm : forall g, Permutation (insertion_order g) g)
    by (intros g; apply Permutation_refl).
  assert (HB : 1 <= BatchSize cfg_run) by (simpl; lia).
  assert (Hnd : NoDup (map ID (fs_entries leased_and_free)))
    by (repeat constructor; simpl; intuition discriminate).
  assert (Hc : settingsFromContext settings_ctx <> Panics) by discriminate.
  split; [exact Hok|]. split; [exact Hperm|]. split; [exact HB|]. split; [exact Hnd|].
  split; [exact Hc|].
  split; [exact (proj1 (proj1 (PumpOutbox_fake_ok_store publish_record insertion_order cfg_run
                                 settings_ctx 0 leased_and_free [] Hok Hperm HB Hnd) Hc))|].
  split; [reflexivity|].
  exact (proj1 (proj2 (PumpOutbox_fake_ok_store publish_record insertion_order cfg_run
                         background 0 leased_and_free [] Hok Hperm HB Hnd) eq_refl
                  ltac:(vm_compute; discriminate))).
Defined.
